(** * OrientPy: the complementary filter and the orientation processor

    A shallow embedding of [src/filter.py] and [src/processor.py], with
    the functions of [src/utils.py], the data logger of [src/viz.py] and
    the register decoding of [src/examples/simple_model.py].

    - Python floats are IEEE 754 binary floats, modelled by the Standard
      Library's [spec_float] with round-to-nearest-even arithmetic.  The
      format (number of mantissa bits, exponent range) belongs to the
      interpreter, so it is a field of [Platform].
    - Python integers are [Z].  An integer that meets a float in an
      operation is converted first, and an integer beyond the range of the
      floats raises [OverflowError] there.
    - [x ** 2] is computed by the power function of the C library the
      interpreter is built on.  Its last bit is not fixed by IEEE 754, and
      an overflow raises [OverflowError], so it is a field of [Platform]
      too.
    - A method is a function from the object's state to its result and the
      state it leaves behind.  A method that can raise returns a [result].
      The state an exception leaves behind is not modelled.
    - Every call of [utime.ticks_ms()] is an argument that carries the value
      the call returned; [utime.sleep_ms] and [print] change nothing the
      model follows. *)

From Stdlib Require Import ZArith Bool List Lia.
From Stdlib Require Import Floats.SpecFloat.
Import ListNotations.
Local Open Scope Z_scope.

(** ** Exceptions *)

Inductive exn : Type :=
| ZeroDivisionError
| ValueError
| AttributeError
| OverflowError
| IndexError.

Inductive result (A : Type) : Type :=
| Ok (a : A)
| Raise (e : exn).
Arguments Ok {A} a.
Arguments Raise {A} e.

Definition bind {A B : Type} (m : result A) (k : A -> result B) : result B :=
  match m with
  | Ok a => k a
  | Raise e => Raise e
  end.

Notation "x <- m ;; k" := (bind m (fun x => k))
  (at level 61, m at next level, right associativity).
Notation "' p <- m ;; k" := (bind m (fun x => let 'p := x in k))
  (at level 61, p pattern, m at next level, right associativity).

(** Reading an attribute that was never assigned. *)
Definition attr {A : Type} (a : option A) : result A :=
  match a with
  | Some v => Ok v
  | None => Raise AttributeError
  end.

(** ** The platform: float format, clock width, [**] and [math.atan2]

    A tick count is a small integer of the interpreter: the difference of
    two of them is within the range of the floats. *)

Definition float : Type := spec_float.

Class Platform : Type := {
  prec : Z;                          (* mantissa bits of a float *)
  emax : Z;                          (* exponent of the infinities *)
  format_ok : 0 < prec < emax;
  ticks_bits : Z;                    (* ticks_ms counts modulo 2^ticks_bits *)
  ticks_ok : 0 < ticks_bits < emax;
  square : float -> result float;    (* x ** 2 *)
  atan2 : float -> float -> float    (* math.atan2 *)
}.

(** [floor (pi * 2^128)]: the constant the float [math.pi] is rounded from. *)
Definition pi_bits : Z := 128.
Definition pi_fixed : Z := 1069028584064966747859680373161870783300.

Section Arithmetic.
Context {P : Platform}.

(** The float nearest to an integer: a float literal such as [180.0],
    and the conversion of an integer within the range of the floats. *)
Definition of_int (n : Z) : float := binary_normalize prec emax n 0 false.

(** Conversion of an integer to a float, [float(n)], also where an
    integer operand meets a float one: an integer whose nearest float
    would be an infinity raises [OverflowError]. *)
Definition to_float (n : Z) : result float :=
  match of_int n with
  | S754_infinity _ => Raise OverflowError
  | f => Ok f
  end.

Definition zero : float := S754_zero false.
Definition one : float := of_int 1.

Definition fadd : float -> float -> float := SFadd prec emax.
Definition fsub : float -> float -> float := SFsub prec emax.
Definition fmul : float -> float -> float := SFmul prec emax.
Definition fsqrt : float -> float := SFsqrt prec emax.

(** The quotient of IEEE 754, defined on every divisor. *)
Definition fdiv : float -> float -> float := SFdiv prec emax.

(** The float literal written [n/d] in decimal, such as [0.95] or [1e-10]. *)
Definition decimal (n d : Z) : float := fdiv (of_int n) (of_int d).

Definition is_zero (a : float) : bool :=
    match a with
    | S754_zero _ => true
    | _ => false
    end.

Definition is_nan (a : float) : bool :=
    match a with
    | S754_nan => true
    | _ => false
    end.

  (** [a / b]: true division raises on a zero divisor of either sign. *)
Definition truediv (a b : float) : result float :=
    if is_zero b then Raise ZeroDivisionError else Ok (fdiv a b).

  (** [a // b] on integers. *)
Definition floordiv (a b : Z) : result Z :=
    if b =? 0 then Raise ZeroDivisionError else Ok (a / b).

  (** [math.sqrt]: a domain error on a negative argument. *)
Definition math_sqrt (a : float) : result float :=
    if SFltb a zero then Raise ValueError else Ok (fsqrt a).

Definition math_pi : float := binary_normalize prec emax pi_fixed (- pi_bits) false.

  (** [math.degrees a] is [a * (180 / pi)]. *)
Definition math_degrees (a : float) : float :=
    fmul a (fdiv (of_int 180) math_pi).

  (** [utime.ticks_diff a b]: the difference of two tick counts, wrapped
      into [[-period/2, period/2)]. *)
Definition ticks_period : Z := 2 ^ ticks_bits.
Definition ticks_diff (a b : Z) : Z :=
    (a - b + ticks_period / 2) mod ticks_period - ticks_period / 2.

  (** The tick count [utime.ticks_ms()] returns [n] milliseconds after the
    counter was at 0. *)
Definition tick (n : Z) : Z := n mod ticks_period.

(** The interval of seconds between two tick counts:
    [utime.ticks_diff(a, b) / 1000.0].  The difference is within the
    range of the floats ([ticks_ok]), and [1000.0] is not zero. *)
Definition seconds_between (a b : Z) : float :=
    fdiv (of_int (ticks_diff a b)) (of_int 1000).
End Arithmetic.

Declare Scope py_scope.
Delimit Scope py_scope with py.
Notation "a + b" := (fadd a b) : py_scope.
Notation "a - b" := (fsub a b) : py_scope.
Notation "a * b" := (fmul a b) : py_scope.
Notation "a / b" := (fdiv a b) : py_scope.
Notation "- a" := (SFopp a) : py_scope.
Notation "a <= b" := (SFleb a b) : py_scope.
Notation "a < b" := (SFltb a b) : py_scope.

(** ** Sensor vectors and angle pairs

    The dictionaries [{'x': .., 'y': .., 'z': ..}] and
    [{'pitch': .., 'roll': ..}]. *)

Module Vec.
Record t : Type := Build { x : float; y : float; z : float }.
End Vec.

Module Angles.
Record t : Type := Build { pitch : float; roll : float }.
End Angles.

(** ** filter.py *)

Module ComplementaryFilter.

  (** [pitch_weight] and [roll_weight] exist only once [set_weights] has
      accepted a value for them. *)
Record t : Type := Build {
    update_rate : Z;
    pitch_weight : option float;
    roll_weight : option float;
    pitch : float;
    roll : float;
    last_update : Z;
    dt : float
  }.

Definition with_pitch_weight (w : float) (self : t) : t :=
    Build (update_rate self) (Some w) (roll_weight self) (pitch self)
          (roll self) (last_update self) (dt self).

Definition with_roll_weight (w : float) (self : t) : t :=
    Build (update_rate self) (pitch_weight self) (Some w) (pitch self)
          (roll self) (last_update self) (dt self).

Definition with_pitch (a : float) (self : t) : t :=
    Build (update_rate self) (pitch_weight self) (roll_weight self) a
          (roll self) (last_update self) (dt self).

Definition with_roll (a : float) (self : t) : t :=
    Build (update_rate self) (pitch_weight self) (roll_weight self)
          (pitch self) a (last_update self) (dt self).

Definition with_last_update (now : Z) (self : t) : t :=
    Build (update_rate self) (pitch_weight self) (roll_weight self)
          (pitch self) (roll self) now (dt self).

Definition with_dt (d : float) (self : t) : t :=
    Build (update_rate self) (pitch_weight self) (roll_weight self)
          (pitch self) (roll self) (last_update self) d.

Section Methods.
Context {P : Platform}.

    (** [0 <= w <= 1] *)
Definition in_unit_interval (w : float) : bool :=
      (zero <= w)%py && (w <= one)%py.

    (** One [if arg is not None:] block of [set_weights]: [None] when the
        block returns [False], the state after the block otherwise. *)
Definition checked (arg : option float) (assign : float -> t -> t)
        (self : t) : option t :=
      match arg with
      | None => Some self
      | Some w => if in_unit_interval w then Some (assign w self) else None
      end.

Definition set_weights (self : t)
        (gyro_weight pitch_weight roll_weight : option float) : t * bool :=
      match checked gyro_weight
              (fun w s => with_roll_weight w (with_pitch_weight w s)) self with
      | None => (self, false)
      | Some s1 =>
        match checked pitch_weight with_pitch_weight s1 with
        | None => (s1, false)
        | Some s2 =>
          match checked roll_weight with_roll_weight s2 with
          | None => (s2, false)
          | Some s3 => (s3, true)
          end
        end
      end.

    (** The default of the constructor's [gyro_weight]. *)
Definition default_gyro_weight : float := decimal 95 100.

    (** [now] is the tick count the constructor reads. *)
Definition __init__ (update_rate : Z) (gyro_weight : float) (now : Z)
        : result t :=
      let self := Build update_rate None None zero zero now zero in
      let self := fst (set_weights self (Some gyro_weight) None None) in
      let self := with_roll zero (with_pitch zero self) in
      let self := with_last_update now self in
      rate <- to_float update_rate ;;
      d <- truediv one rate ;;
      Ok (with_dt d self).

Definition epsilon : float := decimal 1 (10 ^ 10).

    (** The guard on [denominator], shared by the two angle functions. *)
Definition clamp (denominator : float) : float :=
      if (SFabs denominator < epsilon)%py
      then (if (zero <= denominator)%py then epsilon else (- epsilon)%py)
      else denominator.

    (** The value of [denominator] that [_get_accel_pitch] hands to
        [math.atan2]. *)
Definition pitch_denominator (accel : Vec.t) : result float :=
      y2 <- square (Vec.y accel) ;;
      z2 <- square (Vec.z accel) ;;
      denominator <- math_sqrt (y2 + z2)%py ;;
      Ok (clamp denominator).

Definition _get_accel_pitch (accel : Vec.t) : result float :=
      denominator <- pitch_denominator accel ;;
      Ok (atan2 (- Vec.x accel)%py denominator).

    (** The value of [denominator] that [_get_accel_roll] hands to
        [math.atan2]. *)
Definition roll_denominator (accel : Vec.t) : result float :=
      x2 <- square (Vec.x accel) ;;
      z2 <- square (Vec.z accel) ;;
      denominator <- math_sqrt (x2 + z2)%py ;;
      Ok (clamp denominator).

Definition _get_accel_roll (accel : Vec.t) : result float :=
      denominator <- roll_denominator accel ;;
      Ok (atan2 (Vec.y accel) denominator).

Definition get_angles (self : t) (in_degrees : bool) : t * Angles.t :=
      if in_degrees
      then (self, Angles.Build (math_degrees (pitch self))
                               (math_degrees (roll self)))
      else (self, Angles.Build (pitch self) (roll self)).

    (** The time step [update] integrates: the caller's [dt], or the
        interval since [last_update], replaced by the stored [dt] when it
        is not positive. *)
Definition time_step (self : t) (dt : option float) (now : Z) : float :=
      match dt with
      | Some d => d
      | None =>
        let d := seconds_between now (last_update self) in
        if (d <= zero)%py then ComplementaryFilter.dt self else d
      end.

Definition update (self : t) (accel gyro : Vec.t) (dt : option float)
        (now : Z) : result (t * Angles.t) :=
      let dt := time_step self dt now in
      let self := with_last_update now self in
      let self := with_dt dt self in
      accel_pitch <- _get_accel_pitch accel ;;
      accel_roll <- _get_accel_roll accel ;;
      pw <- attr (pitch_weight self) ;;
      let self :=
        with_pitch (pw * (pitch self + Vec.y gyro * dt)
                    + (one - pw) * accel_pitch)%py self in
      rw <- attr (roll_weight self) ;;
      let self :=
        with_roll (rw * (roll self + Vec.x gyro * dt)
                   + (one - rw) * accel_roll)%py self in
      Ok (get_angles self false).

Definition reset (self : t) (now : Z) : t :=
      with_last_update now (with_roll zero (with_pitch zero self)).
End Methods.
End ComplementaryFilter.

(** ** processor.py *)

Module OrientProcessor.

Record t : Type := Build {
    update_rate : Z;
    filter : ComplementaryFilter.t;
    accel_offset : Vec.t;
    gyro_offset : Vec.t;
    last_update : Z;
    min_interval : Z
  }.

Definition with_filter (f : ComplementaryFilter.t) (self : t) : t :=
    Build (update_rate self) f (accel_offset self) (gyro_offset self)
          (last_update self) (min_interval self).

Definition with_gyro_offset (v : Vec.t) (self : t) : t :=
    Build (update_rate self) (filter self) (accel_offset self) v
          (last_update self) (min_interval self).

Definition with_last_update (now : Z) (self : t) : t :=
    Build (update_rate self) (filter self) (accel_offset self)
          (gyro_offset self) now (min_interval self).

Section Methods.
Context {P : Platform}.

    (** [now_filter] is the tick count the filter's constructor reads,
        [now] the one the processor reads after it. *)
Definition __init__ (update_rate : Z) (now_filter now : Z) : result t :=
      f <- ComplementaryFilter.__init__ update_rate
             ComplementaryFilter.default_gyro_weight now_filter ;;
      let origin := Vec.Build zero zero zero in
      interval <- floordiv 1000 update_rate ;;
      Ok (Build update_rate f origin origin now interval).

    (** The loop of [calibrate_gyro]: [count] more iterations, the next
        call of the sample source being its [i]-th (from 0). *)
Fixpoint accumulate (read_gyro_func : nat -> Vec.t) (count i : nat)
        (sum : Vec.t) : Vec.t :=
      match count with
      | O => sum
      | S count' =>
        let gyro := read_gyro_func i in
        accumulate read_gyro_func count' (S i)
          (Vec.Build (Vec.x sum + Vec.x gyro)%py
                     (Vec.y sum + Vec.y gyro)%py
                     (Vec.z sum + Vec.z gyro)%py)
      end.

    (** [sum / samples] on one axis.  After a round of the loop the sum
        is a float, and the count is converted to a float to divide it.
        With no round the sum is still the integer 0, and the quotient
        of the integer 0 by an integer is a zero that takes the sign of
        the divisor. *)
Definition mean (sum : float) (samples : Z) : result float :=
      if 0 <? samples
      then count <- to_float samples ;; truediv sum count
      else if samples =? 0 then Raise ZeroDivisionError
      else Ok (S754_zero true).

    (** [read_gyro_func i] is what the [i]-th call of the sample source
        returns. *)
Definition calibrate_gyro (self : t) (read_gyro_func : nat -> Vec.t)
        (samples : Z) : result (t * Vec.t) :=
      let sum :=
        accumulate read_gyro_func (Z.to_nat samples) O
                   (Vec.Build zero zero zero) in
      ox <- mean (Vec.x sum) samples ;;
      oy <- mean (Vec.y sum) samples ;;
      oz <- mean (Vec.z sum) samples ;;
      let self := with_gyro_offset (Vec.Build ox oy oz) self in
      Ok (self, gyro_offset self).

Definition should_update (self : t) (now : Z) : t * bool :=
      let elapsed := ticks_diff now (last_update self) in
      (self, min_interval self <=? elapsed).

    (** [now_gate] is the tick count [should_update] reads, [now] the one
        [update] reads itself, [now_filter] the one the filter reads. *)
Definition update (self : t) (accel gyro : Vec.t)
        (now_gate now now_filter : Z) : result (t * option Angles.t) :=
      let '(self, due) := should_update self now_gate in
      if negb due then Ok (self, None)
      else
        let dt := seconds_between now (last_update self) in
        let self := with_last_update now self in
        let calibrated_gyro :=
          Vec.Build (Vec.x gyro - Vec.x (gyro_offset self))%py
                    (Vec.y gyro - Vec.y (gyro_offset self))%py
                    (Vec.z gyro - Vec.z (gyro_offset self))%py in
        '(f, angles) <- ComplementaryFilter.update (filter self) accel
                          calibrated_gyro (Some dt) now_filter ;;
        Ok (with_filter f self, Some angles).

Definition get_orientation (self : t) (in_degrees : bool)
        : t * Angles.t :=
      let '(f, angles) := ComplementaryFilter.get_angles (filter self) in_degrees in
      (with_filter f self, angles).

Definition set_filter_weights (self : t)
        (gyro_weight pitch_weight roll_weight : option float) : t * bool :=
      let '(f, ok) := ComplementaryFilter.set_weights (filter self)
                        gyro_weight pitch_weight roll_weight in
      (with_filter f self, ok).
End Methods.
End OrientProcessor.

(** ** Reference platforms

    [math.atan2] is not part of the repository.  For concrete runs it is
    computed here in 128-bit fixed point and rounded to the float format:
    the angle of the first quadrant from the series of the arc tangent
    after two halvings of the angle, then the quadrant from the signs.

    [x ** 2] is not part of the repository either.  The reference is the
    correctly rounded square, with [OverflowError] where a finite [x]
    has a square beyond the range of the floats.  The power function of a
    C library is accurate to one unit in the last place without being
    correctly rounded: where the square is not a float itself, a run may
    differ from the reference in the last bit. *)

Module Reference.
Section Square.
Variables (fprec femax : Z).

Definition rounded_square (a : float) : result float :=
  match a with
  | S754_finite _ _ _ =>
    match SFmul fprec femax a a with
    | S754_infinity _ => Raise OverflowError
    | r => Ok r
    end
  | _ => Ok (SFmul fprec femax a a)
  end.
End Square.

Section Atan2.
Variables (fprec femax : Z).

Definition unit_fixed : Z := 2 ^ pi_bits.

Definition round_fixed (a : Z) : float :=
  binary_normalize fprec femax a (- pi_bits) false.

Fixpoint atan_series (fuel : nat) (k power u2 : Z) (negative : bool)
    (acc : Z) : Z :=
  match fuel with
  | O => acc
  | S fuel' =>
    let term := power / (2 * k + 1) in
    atan_series fuel' (k + 1) (power * u2 / unit_fixed) u2 (negb negative)
                (if negative then acc - term else acc + term)
  end.

(** [tan (a/2)] from [tan a]. *)
Definition halve_angle (t : Z) : Z :=
  t * unit_fixed / (unit_fixed + Z.sqrt (unit_fixed * unit_fixed + t * t)).

Definition atan_fixed (t : Z) : Z :=
  let u := halve_angle (halve_angle t) in
  4 * atan_series 48 0 u (u * u / unit_fixed) false 0.

(** [ma * 2^ea / (mb * 2^eb)] in fixed point. *)
Definition ratio_fixed (ma : positive) (ea : Z) (mb : positive) (eb : Z) : Z :=
  let s := ea - eb + pi_bits in
  if 0 <=? s then Z.shiftl (Zpos ma) s / Zpos mb
  else Zpos ma / Z.shiftl (Zpos mb) (- s).

(** The angle of [(|x|, |y|)]: undefined on a NaN, a fixed-point number, or
    for a small quotient the quotient itself beside its fixed-point value. *)
Inductive quadrant_angle : Type :=
| Undefined
| Fixed (a : Z)
| Small (a : Z) (q : float).

Definition first_quadrant (y x : float) : quadrant_angle :=
  match y, x with
  | S754_nan, _ | _, S754_nan => Undefined
  | S754_zero _, _ => Fixed 0
  | _, S754_zero _ => Fixed (pi_fixed / 2)
  | S754_infinity _, S754_infinity _ => Fixed (pi_fixed / 4)
  | S754_infinity _, _ => Fixed (pi_fixed / 2)
  | _, S754_infinity _ => Fixed 0
  | S754_finite _ my ey, S754_finite _ mx ex =>
    if SFleb (SFabs y) (SFabs x)
    then
      let t := ratio_fixed my ey mx ex in
      if t <? 2 ^ (pi_bits - 40)
      then Small t (SFabs (SFdiv fprec femax y x))
      else Fixed (atan_fixed t)
    else Fixed (pi_fixed / 2 - atan_fixed (ratio_fixed mx ex my ey))
  end.

Definition sign_bit (a : float) : bool :=
  match a with
  | S754_zero s | S754_infinity s | S754_finite s _ _ => s
  | S754_nan => false
  end.

Definition with_sign (s : bool) (a : float) : float :=
  if s then SFopp a else a.

(** Keeps a rounded angle within [[-pi, pi]]. *)
Definition saturate (a : float) : float :=
  let pi := round_fixed pi_fixed in
  if SFltb pi (SFabs a) then with_sign (sign_bit a) pi else a.

Definition fixed_atan2 (y x : float) : float :=
  match first_quadrant y x with
  | Undefined => S754_nan
  | Fixed a =>
    saturate (with_sign (sign_bit y)
                (round_fixed (if sign_bit x then pi_fixed - a else a)))
  | Small a q =>
    saturate (with_sign (sign_bit y)
                (if sign_bit x then round_fixed (pi_fixed - a) else q))
  end.
End Atan2.

Definition binary32_ok : 0 < 24 < 128 := conj eq_refl eq_refl.
Definition binary64_ok : 0 < 53 < 1024 := conj eq_refl eq_refl.
Definition ticks32_ok : 0 < 30 < 128 := conj eq_refl eq_refl.
Definition ticks64_ok : 0 < 30 < 1024 := conj eq_refl eq_refl.

(** Single-precision floats and a 30-bit tick counter. *)
Definition binary32 : Platform :=
  {| prec := 24; emax := 128; format_ok := binary32_ok;
     ticks_bits := 30; ticks_ok := ticks32_ok;
     square := rounded_square 24 128; atan2 := fixed_atan2 24 128 |}.

(** Double-precision floats and a 30-bit tick counter. *)
Definition binary64 : Platform :=
  {| prec := 53; emax := 1024; format_ok := binary64_ok;
     ticks_bits := 30; ticks_ok := ticks64_ok;
     square := rounded_square 53 1024; atan2 := fixed_atan2 53 1024 |}.
End Reference.

(** Decimal literals used in the examples, in double precision. *)
Definition f64 (n d : Z) : float := decimal (P := Reference.binary64) n d.
Definition f32 (n d : Z) : float := decimal (P := Reference.binary32) n d.

(** ** utils.py *)

Module Utils.
Section Functions.
Context {P : Platform}.

(** [create_vector] on integer arguments: [float] converts each. *)
Definition create_vector (x y z : Z) : result Vec.t :=
  fx <- to_float x ;;
  fy <- to_float y ;;
  fz <- to_float z ;;
  Ok (Vec.Build fx fy fz).

Definition vector_magnitude (vector : Vec.t) : result float :=
  x2 <- square (Vec.x vector) ;;
  y2 <- square (Vec.y vector) ;;
  z2 <- square (Vec.z vector) ;;
  math_sqrt (x2 + y2 + z2)%py.

Definition apply_calibration (raw_data offsets : Vec.t) : Vec.t :=
  Vec.Build (Vec.x raw_data - Vec.x offsets)%py
            (Vec.y raw_data - Vec.y offsets)%py
            (Vec.z raw_data - Vec.z offsets)%py.

Definition degrees_to_radians (degrees : float) : float :=
  (degrees * (math_pi / of_int 180))%py.

Definition radians_to_degrees (radians : float) : float :=
  (radians * (of_int 180 / math_pi))%py.
End Functions.
End Utils.

(** ** viz.py: [SimpleDataLogger]

    The seven buffers are Python lists; an angle that was not supplied is
    stored as [None].  [pop(0)] on an empty list raises [IndexError], which
    [pop0] renders as [None]. *)

Module SimpleDataLogger.

Record t : Type := Build {
  buffer_size : Z;
  time_buffer : list float;
  pitch_buffer : list float;
  roll_buffer : list float;
  accel_pitch_buffer : list (option float);
  accel_roll_buffer : list (option float);
  gyro_pitch_buffer : list (option float);
  gyro_roll_buffer : list (option float);
  start_time : Z
}.

(** [list.pop(0)], the popped element dropped. *)
Definition pop0 {A : Type} (l : list A) : option (list A) :=
  match l with
  | [] => None
  | _ :: rest => Some rest
  end.

Section Methods.
Context {P : Platform}.

(** [now] is the tick count the constructor reads. *)
Definition __init__ (buffer_size : Z) (now : Z) : t :=
  Build buffer_size [] [] [] [] [] [] [] now.

(** [now] is the tick count the method reads.  [None] stands for the
    [IndexError] of a [pop(0)] on an empty buffer. *)
Definition add_data_point (self : t) (angles : Angles.t)
    (accel_angles gyro_angles : option Angles.t) (now : Z) : option t :=
  let current_time := seconds_between now (start_time self) in
  let times := time_buffer self ++ [current_time] in
  let pitches := pitch_buffer self ++ [Angles.pitch angles] in
  let rolls := roll_buffer self ++ [Angles.roll angles] in
  let accel_pitches :=
    accel_pitch_buffer self ++ [option_map Angles.pitch accel_angles] in
  let accel_rolls :=
    accel_roll_buffer self ++ [option_map Angles.roll accel_angles] in
  let gyro_pitches :=
    gyro_pitch_buffer self ++ [option_map Angles.pitch gyro_angles] in
  let gyro_rolls :=
    gyro_roll_buffer self ++ [option_map Angles.roll gyro_angles] in
  if buffer_size self <? Z.of_nat (length times)
  then
    match pop0 times, pop0 pitches, pop0 rolls, pop0 accel_pitches,
          pop0 accel_rolls, pop0 gyro_pitches, pop0 gyro_rolls with
    | Some t', Some p', Some r', Some ap', Some ar', Some gp', Some gr' =>
      Some (Build (buffer_size self) t' p' r' ap' ar' gp' gr'
                  (start_time self))
    | _, _, _, _, _, _, _ => None
    end
  else
    Some (Build (buffer_size self) times pitches rolls accel_pitches
                accel_rolls gyro_pitches gyro_rolls (start_time self)).

Definition clear (self : t) : t :=
  Build (buffer_size self) [] [] [] [] [] [] [] (start_time self).
End Methods.
End SimpleDataLogger.

(** ** examples/simple_model.py: decoding the sensor registers

    [data] is the block of bytes [i2c.readfrom_mem] returns, a byte being
    an integer from 0 to 255.  An index past the end of [data] raises
    [IndexError], which [raw_axis] renders as [None]. *)

Module SimpleModel.
Section Functions.
Context {P : Platform}.

(** The signed 16-bit value at [data[i]], [data[i + 1]]:
    [x = (data[i] << 8) | data[i+1]], then [x - 0x10000] when
    [x >= 0x8000]. *)
Definition raw_axis (data : list Z) (i : nat) : option Z :=
  match nth_error data i, nth_error data (S i) with
  | Some high, Some low =>
    let x := Z.lor (Z.shiftl high 8) low in
    Some (if 32768 <=? x then x - 65536 else x)
  | _, _ => None
  end.

(** One axis: the signed value at [data[i]], [data[i + 1]], then
    [(x / scale) * unit]. *)
Definition read_axis (data : list Z) (i : nat) (scale unit : float)
    : result float :=
  match raw_axis data i with
  | None => Raise IndexError
  | Some x =>
    raw <- to_float x ;;
    quotient <- truediv raw scale ;;
    Ok (quotient * unit)%py
  end.

(** The three axes, one after the other. *)
Definition read_axes (data : list Z) (scale unit : float) : result Vec.t :=
  x <- read_axis data 0 scale unit ;;
  y <- read_axis data 2 scale unit ;;
  z <- read_axis data 4 scale unit ;;
  Ok (Vec.Build x y z).

(** [read_accel]: [accel_scale = 16384.0], [g = 9.81]. *)
Definition read_accel (data : list Z) : result Vec.t :=
  read_axes data (of_int 16384) (decimal 981 100).

(** [read_gyro]: [gyro_scale = 131.0], [deg_to_rad = 0.0174533]. *)
Definition read_gyro (data : list Z) : result Vec.t :=
  read_axes data (of_int 131) (decimal 174533 10000000).
End Functions.
End SimpleModel.

(** ** Predicates of the statements *)

(** The sign bit of a float is clear, or the float is a NaN. *)
Definition nonneg (a : float) : bool :=
  match a with
  | S754_nan => true
  | S754_zero s | S754_infinity s | S754_finite s _ _ => negb s
  end.

(** A float that is not a NaN and carries the sign [s]. *)
Definition signed (s : bool) (a : float) : Prop :=
  match a with
  | S754_nan => False
  | S754_zero s' | S754_infinity s' | S754_finite s' _ _ => s' = s
  end.

(** Both weights of a filter have been assigned. *)
Definition ready (f : ComplementaryFilter.t) : Prop :=
  ComplementaryFilter.pitch_weight f <> None /\
  ComplementaryFilter.roll_weight f <> None.

Definition no_nan (v : Vec.t) : Prop :=
  is_nan (Vec.x v) = false /\ is_nan (Vec.y v) = false /\
  is_nan (Vec.z v) = false.

(** The literals [0.95] and [1e-10] of the source are, on the platform,
    a weight within [[0, 1]] and a positive number.  Both reference
    platforms meet this by computation. *)
Definition literals_ok {P : Platform} : Prop :=
  ComplementaryFilter.in_unit_interval ComplementaryFilter.default_gyro_weight
    = true /\
  (zero < ComplementaryFilter.epsilon)%py = true.

(** [x ** 2] as Python has it: the one exception it raises is
    [OverflowError]; the result is not negative, and it is a NaN only when
    [x] is one. *)
Definition square_documented {P : Platform} : Prop :=
  forall a,
    match square a with
    | Ok r => nonneg r = true /\ (is_nan a = false -> is_nan r = false)
    | Raise e => e = OverflowError
    end.

(** The square of every component of a vector is within the range of the
    floats: [**] raises on none of them. *)
Definition squares_return {P : Platform} (v : Vec.t) : Prop :=
  exists x2 y2 z2,
    square (Vec.x v) = Ok x2 /\ square (Vec.y v) = Ok y2 /\
    square (Vec.z v) = Ok z2.

(** An integer within the range of the floats. *)
Definition in_float_range {P : Platform} (n : Z) : Prop :=
  to_float n = Ok (of_int n).

(** [math.atan2] as the Python documentation has it: the result is between
    [-pi] and [pi]. *)
Definition atan2_documented {P : Platform} : Prop :=
  forall y x, is_nan y = false -> is_nan x = false ->
  (- math_pi <= atan2 y x)%py = true /\ (atan2 y x <= math_pi)%py = true.

(** The mean [calibrate_gyro] computes on one axis from [count] samples
    that all read [b]: the sum [0 + b + ... + b], every addition rounded,
    divided by [count]. *)
Definition constant_mean {P : Platform} (count : Z) (b : float) : float :=
  (Nat.iter (Z.to_nat count) (fun sum => sum + b) zero / of_int count)%py.

(** A supplied weight that [set_weights] rejects. *)
Definition outside {P : Platform} (arg : option float) : bool :=
  match arg with
  | Some w => negb (ComplementaryFilter.in_unit_interval w)
  | None => false
  end.

(** The assignment an [if arg is not None:] block of [set_weights] makes
    once its check has passed. *)
Definition applied (arg : option float)
    (assign : float -> ComplementaryFilter.t -> ComplementaryFilter.t)
    (self : ComplementaryFilter.t) : ComplementaryFilter.t :=
  match arg with
  | Some w => assign w self
  | None => self
  end.

Definition both_weights (w : float) (self : ComplementaryFilter.t)
    : ComplementaryFilter.t :=
  ComplementaryFilter.with_roll_weight w
    (ComplementaryFilter.with_pitch_weight w self).

(** The literal [1000.0] is a finite float on the platform. *)
Definition thousand_finite {P : Platform} : Prop :=
  exists m e, of_int 1000 = S754_finite false m e.

(** One call of [OrientProcessor.update]: its arguments and the three tick
    counts it reads. *)
Record call : Type := Call {
  call_accel : Vec.t;
  call_gyro : Vec.t;
  call_gate : Z;
  call_now : Z;
  call_filter : Z
}.

(** A run of calls of [OrientProcessor.update], with what each returned. *)
Fixpoint update_all {P : Platform} (self : OrientProcessor.t)
    (calls : list call) : result (OrientProcessor.t * list (option Angles.t)) :=
  match calls with
  | [] => Ok (self, [])
  | c :: rest =>
    ' (self1, outcome) <-
        OrientProcessor.update self (call_accel c) (call_gyro c)
          (call_gate c) (call_now c) (call_filter c) ;;
    ' (self2, outcomes) <- update_all self1 rest ;;
    Ok (self2, outcome :: outcomes)
  end.

(** One call of [SimpleDataLogger.add_data_point]: its arguments and the
    tick count it reads. *)
Record point : Type := Point {
  point_angles : Angles.t;
  point_accel : option Angles.t;
  point_gyro : option Angles.t;
  point_now : Z
}.

(** A run of calls of [SimpleDataLogger.add_data_point]. *)
Fixpoint add_all {P : Platform} (self : SimpleDataLogger.t)
    (points : list point) : option SimpleDataLogger.t :=
  match points with
  | [] => Some self
  | p :: rest =>
    match SimpleDataLogger.add_data_point self (point_angles p)
            (point_accel p) (point_gyro p) (point_now p) with
    | Some self1 => add_all self1 rest
    | None => None
    end
  end.

(** The last [n] elements of a list. *)
Definition lastn {A : Type} (n : nat) (l : list A) : list A :=
  skipn (length l - n) l.

(** The seven buffers of a logger all hold [n] entries. *)
Definition aligned (self : SimpleDataLogger.t) (n : nat) : Prop :=
  length (SimpleDataLogger.time_buffer self) = n /\
  length (SimpleDataLogger.pitch_buffer self) = n /\
  length (SimpleDataLogger.roll_buffer self) = n /\
  length (SimpleDataLogger.accel_pitch_buffer self) = n /\
  length (SimpleDataLogger.accel_roll_buffer self) = n /\
  length (SimpleDataLogger.gyro_pitch_buffer self) = n /\
  length (SimpleDataLogger.gyro_roll_buffer self) = n.

(** What a logger holds after the points [done], oldest first. *)
Definition holds {P : Platform} (k : Z) (now0 : Z) (done : list point) (self : SimpleDataLogger.t) : Prop :=
  let kept := lastn (Z.to_nat k) done in
  SimpleDataLogger.buffer_size self = k /\
  SimpleDataLogger.start_time self = now0 /\
  SimpleDataLogger.time_buffer self
    = map (fun p => seconds_between (point_now p) now0) kept /\
  SimpleDataLogger.pitch_buffer self = map (fun p => Angles.pitch (point_angles p)) kept /\
  SimpleDataLogger.roll_buffer self = map (fun p => Angles.roll (point_angles p)) kept /\
  SimpleDataLogger.accel_pitch_buffer self
    = map (fun p => option_map Angles.pitch (point_accel p)) kept /\
  SimpleDataLogger.accel_roll_buffer self
    = map (fun p => option_map Angles.roll (point_accel p)) kept /\
  SimpleDataLogger.gyro_pitch_buffer self
    = map (fun p => option_map Angles.pitch (point_gyro p)) kept /\
  SimpleDataLogger.gyro_roll_buffer self
    = map (fun p => option_map Angles.roll (point_gyro p)) kept.

(** Every element of a block is a byte. *)
Definition bytes (data : list Z) : Prop :=
  Forall (fun b => 0 <= b < 256) data.

(** A float of the platform's format: a zero, an infinity, a NaN, or a
    mantissa and an exponent in canonical form. *)
Definition is_float {P : Platform} (a : float) : bool :=
  valid_binary prec emax a.

(** A zero or a finite number: no infinity and no NaN. *)
Definition finite (a : float) : bool :=
  match a with
  | S754_zero _ | S754_finite _ _ _ => true
  | S754_infinity _ | S754_nan => false
  end.

(** Two floats that are the same float, or zeros that may differ in sign. *)
Definition same_number (a b : float) : Prop :=
  a = b \/ (is_zero a = true /\ is_zero b = true).

(** ** Concrete inputs of the examples *)

(** The filter [ComplementaryFilter(100)] built at tick 0, in double
    precision. *)
Definition filter64 : ComplementaryFilter.t :=
  ComplementaryFilter.Build 100 (Some (f64 95 100)) (Some (f64 95 100))
    zero zero 0 (f64 1 100).

(** A level sensor at rest, [(0, 0, 9.81)], and a turn about the y axis
    at [1 rad/s]. *)
Definition level64 : Vec.t := Vec.Build zero zero (f64 981 100).
Definition turning64 : Vec.t := Vec.Build zero (f64 1 1) zero.

(** The processor [OrientProcessor(100)] built at tick 0. *)
Definition processor64 : OrientProcessor.t :=
  OrientProcessor.Build 100 filter64 (Vec.Build zero zero zero)
    (Vec.Build zero zero zero) 0 10.

(** A sample source that returns [(0.1, 0.1, 0.1)] on every call. *)
Definition biased64 (i : nat) : Vec.t :=
  Vec.Build (f64 1 10) (f64 1 10) (f64 1 10).
Definition biased32 (i : nat) : Vec.t :=
  Vec.Build (f32 1 10) (f32 1 10) (f32 1 10).

(** A sensor with its x axis up, [(1.0, 0.0, 0.0)]. *)
Definition sideways64 : Vec.t := Vec.Build (f64 1 1) zero zero.

(** A sensor tilted about both axes, [(1.0, 0.5, 1.0)]. *)
Definition tilted64 : Vec.t := Vec.Build (f64 1 1) (f64 1 2) (f64 1 1).

(** [processor64] after the update at tick 20 on [level64] and
    [turning64]: the pitch is [0.95 * (0 + 1 * 0.02)], that is 0.019. *)
Definition stepped64 : OrientProcessor.t :=
  OrientProcessor.Build 100
    (ComplementaryFilter.Build 100 (Some (f64 95 100)) (Some (f64 95 100))
       (f64 19 1000) zero 20 (f64 2 100))
    (Vec.Build zero zero zero) (Vec.Build zero zero zero) 20 10.

(** A block of six register bytes: the axes read -256, 16384 and 1. *)
Definition block64 : list Z := [255; 0; 64; 0; 0; 1].

(** A logger of size 2 that holds one point. *)
Definition logger64 : SimpleDataLogger.t :=
  SimpleDataLogger.Build 2 [f64 1 100] [f64 19 1000] [zero]
    [None] [None] [None] [None] 0.

(** The processor [OrientProcessor(2000)] built at tick 0. *)
Definition fast64 : OrientProcessor.t :=
  OrientProcessor.Build 2000
    (ComplementaryFilter.Build 2000 (Some (f64 95 100)) (Some (f64 95 100))
       zero zero 0 (f64 1 2000))
    (Vec.Build zero zero zero) (Vec.Build zero zero zero) 0 0.

(** Two calls 5 ms and 9 ms after the update of [stepped64]. *)
Definition burst64 : list call :=
  [Call level64 turning64 25 25 25; Call tilted64 turning64 29 29 29].

(** Filters with both weights 0 and with both weights 1. *)
Definition accel_only64 : ComplementaryFilter.t :=
  ComplementaryFilter.Build 100 (Some zero) (Some zero) zero zero 0
    (f64 1 100).
Definition gyro_only64 : ComplementaryFilter.t :=
  ComplementaryFilter.Build 100 (Some (f64 1 1)) (Some (f64 1 1))
    (f64 1 2) zero 0 (f64 1 100).

(** * Properties *)

(** ** Rounding keeps the sign and never yields a NaN *)

Section Rounding.
Variables (fprec femax : Z).

Lemma shr_1_nonneg (mrs : shr_record) :
  0 <= shr_m mrs -> 0 <= shr_m (shr_1 mrs).
Proof.
  destruct mrs as [m r s]; simpl.
  destruct m as [|[p|p|]|[p|p|]]; simpl; lia.
Qed.

Lemma iter_shr_1_nonneg (p : positive) :
  forall mrs, 0 <= shr_m mrs -> 0 <= shr_m (iter_pos shr_1 p mrs).
Proof.
  induction p; simpl; intros mrs H; auto using shr_1_nonneg.
Qed.

Lemma shr_fexp_nonneg (m e : Z) (l : location) :
  0 <= m -> 0 <= shr_m (fst (shr_fexp fprec femax m e l)).
Proof.
  intros H. unfold shr_fexp, shr.
  assert (H0 : 0 <= shr_m (shr_record_of_loc m l))
    by (destruct l as [|[]]; simpl; exact H).
  destruct (fexp fprec femax (Zdigits2 m + e) - e); simpl;
    auto using iter_shr_1_nonneg.
Qed.

Lemma round_nearest_even_nonneg (m : Z) (l : location) :
  0 <= m -> 0 <= round_nearest_even m l.
Proof.
  intros H. unfold round_nearest_even.
  destruct l as [|[]]; try destruct (Z.even m); lia.
Qed.

Lemma binary_round_aux_signed (s : bool) (m e : Z) (l : location) :
  0 <= m -> signed s (binary_round_aux fprec femax s m e l).
Proof.
  intros H. unfold binary_round_aux.
  pose proof (shr_fexp_nonneg m e l H) as H1.
  destruct (shr_fexp fprec femax m e l) as [mrs' e']. simpl in H1.
  pose proof (shr_fexp_nonneg _ e' loc_Exact
                (round_nearest_even_nonneg _ (loc_of_shr_record mrs') H1)) as H2.
  destruct (shr_fexp fprec femax _ e' loc_Exact) as [mrs'' e'']. simpl in H2.
  destruct (shr_m mrs'') as [|q|q].
  - reflexivity.
  - destruct (e'' <=? femax - fprec); reflexivity.
  - lia.
Qed.

Lemma binary_round_signed (s : bool) (m : positive) (e : Z) :
  signed s (binary_round fprec femax s m e).
Proof.
  unfold binary_round.
  destruct (shl_align m e _) as [mz ez].
  apply binary_round_aux_signed. lia.
Qed.

Lemma signed_nonneg (a : float) : signed false a -> nonneg a = true.
Proof. destruct a; simpl; intros H; subst; auto; contradiction. Qed.

Lemma SFmul_self_nonneg (a : float) : nonneg (SFmul fprec femax a a) = true.
Proof.
  destruct a as [s|s| |s m e]; simpl;
    try reflexivity; try (destruct s; reflexivity).
  apply signed_nonneg.
  replace (xorb s s) with false by (destruct s; reflexivity).
  apply binary_round_aux_signed. lia.
Qed.

Lemma SFadd_nonneg (a b : float) :
  nonneg a = true -> nonneg b = true -> nonneg (SFadd fprec femax a b) = true.
Proof.
  destruct a as [[]|[]| |[] ma ea]; destruct b as [[]|[]| |[] mb eb];
    simpl; try discriminate; try reflexivity.
  intros _ _. apply signed_nonneg. apply binary_round_signed.
Qed.

Lemma SFltb_nonneg_zero (a : float) :
  nonneg a = true -> SFltb a (S754_zero false) = false.
Proof. destruct a as [[]|[]| |[] m e]; simpl; auto; discriminate. Qed.

Lemma SFsqrt_nonneg (a : float) :
  nonneg a = true -> nonneg (SFsqrt fprec femax a) = true.
Proof.
  destruct a as [[]|[]| |[] m e]; simpl; try discriminate; try reflexivity.
  intros _. apply signed_nonneg.
  unfold SFsqrt_core_binary.
  set (m' := match _ - 2 * _ with Z0 => _ | Zpos _ => _ | Zneg _ => _ end).
  assert (Hm : 0 <= m').
  { subst m'. destruct (_ - 2 * _); try lia. apply Z.shiftl_nonneg. lia. }
  pose proof (Z.sqrtrem_spec m' Hm) as Hs.
  destruct (Z.sqrtrem m') as [q r].
  apply binary_round_aux_signed. lia.
Qed.
End Rounding.

(** ** Rounding a non-zero number above the least exponent never yields zero *)

Section Nonzero.
Variables (fprec femax : Z).
Hypothesis fprec_pos : 0 < fprec.

Lemma digits2_pos_le (p : positive) :
  2 ^ (Zpos (digits2_pos p) - 1) <= Zpos p.
Proof.
  induction p as [p IH|p IH|]; simpl digits2_pos;
    try (rewrite Pos2Z.inj_succ;
         replace (Z.succ (Zpos (digits2_pos p)) - 1)
           with (Z.succ (Zpos (digits2_pos p) - 1)) by lia;
         rewrite Z.pow_succ_r by lia; lia).
  reflexivity.
Qed.

Lemma shr_1_half (mrs : shr_record) :
  0 <= shr_m mrs -> shr_m (shr_1 mrs) = shr_m mrs / 2.
Proof.
  destruct mrs as [m r s]. unfold shr_1. cbn [shr_m].
  destruct m as [|[p|p|]|q]; cbn [shr_m]; intros H; try lia.
  - reflexivity.
  - apply (Z.div_unique_pos _ _ _ 1); lia.
  - apply (Z.div_unique_pos _ _ _ 0); lia.
  - reflexivity.
Qed.

Lemma pow2_xO (k : positive) : 2 ^ Zpos k~0 = 2 ^ Zpos k * 2 ^ Zpos k.
Proof.
  replace (Zpos k~0) with (Zpos k + Zpos k) by lia.
  apply Z.pow_add_r; lia.
Qed.

Lemma pow2_xI (k : positive) : 2 ^ Zpos k~1 = 2 * (2 ^ Zpos k * 2 ^ Zpos k).
Proof.
  replace (Zpos k~1) with (Z.succ (Zpos k + Zpos k)) by lia.
  rewrite Z.pow_succ_r by lia. rewrite Z.pow_add_r by lia. reflexivity.
Qed.

Lemma iter_shr_1_div (k : positive) :
  forall mrs, 0 <= shr_m mrs ->
  shr_m (iter_pos shr_1 k mrs) = shr_m mrs / 2 ^ Zpos k.
Proof.
  induction k as [k IH|k IH|]; intros mrs H; cbn [iter_pos];
    try assert (Hk : 0 < 2 ^ Zpos k) by (apply Z.pow_pos_nonneg; lia).
  - rewrite IH by auto using iter_shr_1_nonneg, shr_1_nonneg.
    rewrite IH by auto using shr_1_nonneg.
    rewrite shr_1_half by assumption.
    rewrite !Z.div_div by lia.
    rewrite pow2_xI, Z.mul_assoc. reflexivity.
  - rewrite IH by auto using iter_shr_1_nonneg.
    rewrite IH by assumption.
    rewrite Z.div_div by lia.
    rewrite pow2_xO. reflexivity.
  - rewrite shr_1_half by assumption. reflexivity.
Qed.

Lemma shr_fexp_positive (m e : Z) (l : location) :
  0 < m -> emin fprec femax <= e ->
  0 < shr_m (fst (shr_fexp fprec femax m e l)) /\
  emin fprec femax <= snd (shr_fexp fprec femax m e l).
Proof.
  intros Hm He. unfold shr_fexp, shr.
  assert (H0 : shr_m (shr_record_of_loc m l) = m)
    by (destruct l as [|[]]; reflexivity).
  destruct m as [|p|p]; try lia.
  pose proof (digits2_pos_le p) as Hd.
  cbn [Zdigits2].
  set (d := Zpos (digits2_pos p)) in *.
  assert (Hd1 : 1 <= d) by (subst d; lia).
  destruct (fexp fprec femax (d + e) - e) as [|k|k] eqn:Ek; cbn [fst snd].
  - rewrite H0. lia.
  - rewrite iter_shr_1_div by (rewrite H0; lia).
    rewrite H0.
    unfold fexp in Ek.
    split.
    + apply Z.div_str_pos. split; [apply Z.pow_pos_nonneg; lia|].
      apply Z.le_trans with (2 ^ (d - 1)); [|exact Hd].
      apply Z.pow_le_mono_r; lia.
    + lia.
  - rewrite H0. lia.
Qed.

Lemma binary_round_aux_nonzero (s : bool) (m e : Z) (l : location) :
  0 < m -> emin fprec femax <= e ->
  is_zero (binary_round_aux fprec femax s m e l) = false.
Proof.
  intros Hm He. unfold binary_round_aux.
  destruct (shr_fexp_positive m e l Hm He) as [H1 H2].
  destruct (shr_fexp fprec femax m e l) as [mrs' e']. cbn [fst snd] in H1, H2.
  assert (H3 : 0 < round_nearest_even (shr_m mrs') (loc_of_shr_record mrs')).
  { unfold round_nearest_even.
    destruct (loc_of_shr_record mrs') as [|[]];
      try destruct (Z.even (shr_m mrs')); lia. }
  destruct (shr_fexp_positive _ e' loc_Exact H3 H2) as [H4 _].
  destruct (shr_fexp fprec femax _ e' loc_Exact) as [mrs'' e''].
  cbn [fst] in H4.
  destruct (shr_m mrs'') as [|q|q]; try lia.
  destruct (e'' <=? femax - fprec); reflexivity.
Qed.

Lemma binary_round_nonzero (s : bool) (m : positive) (e : Z) :
  emin fprec femax <= e ->
  is_zero (binary_round fprec femax s m e) = false.
Proof.
  intros He. unfold binary_round, shl_align.
  set (fe := fexp fprec femax (Zpos (digits2_pos m) + e)).
  assert (Hfe : emin fprec femax <= fe) by (subst fe; unfold fexp; lia).
  destruct (fe - e); apply binary_round_aux_nonzero; lia.
Qed.
End Nonzero.


(** ** Integers within the range of the floats convert to finite floats *)

Lemma Zdigits2_log2 (m : positive) : Zdigits2 (Zpos m) = Z.log2 (Zpos m) + 1.
Proof.
  cbn [Zdigits2].
  assert (H : forall p, digits2_pos p = Pos.size p)
    by (induction p; simpl; congruence).
  rewrite H. destruct m; simpl; lia.
Qed.

Section InRange.
Variables (fprec femax : Z).
Hypothesis fprec_pos : 0 < fprec.
Hypothesis fprec_lt_femax : fprec < femax.

Lemma Zdigits2_nonneg (m : Z) : 0 <= Zdigits2 m.
Proof. destruct m; simpl; lia. Qed.

(** A number below [2^d] has at most [d] digits. *)
Lemma Zdigits2_le (m d : Z) : 0 <= d -> 0 <= m < 2 ^ d -> Zdigits2 m <= d.
Proof.
  intros Hd [H0 Hm]. destruct m as [|p|p]; try lia; [exact Hd|].
  rewrite Zdigits2_log2.
  assert (Z.log2 (Zpos p) < d) by (apply Z.log2_lt_pow2; lia). lia.
Qed.

(** A number is below two to the number of its digits. *)
Lemma Zdigits2_gt (m : Z) : 0 <= m -> m < 2 ^ Zdigits2 m.
Proof.
  intros H. destruct m as [|p|p]; try lia; [reflexivity|].
  rewrite Zdigits2_log2.
  pose proof (Z.log2_spec (Zpos p) eq_refl) as [_ Hs].
  replace (Z.log2 (Zpos p) + 1) with (Z.succ (Z.log2 (Zpos p))) by lia.
  exact Hs.
Qed.

Lemma shr_fexp_exponent (m e : Z) (l : location) :
  snd (shr_fexp fprec femax m e l)
  = Z.max e (fexp fprec femax (Zdigits2 m + e)).
Proof.
  unfold shr_fexp, shr.
  destruct (fexp fprec femax (Zdigits2 m + e) - e) as [|k|k] eqn:E;
    cbn [snd]; lia.
Qed.

(** What is left of a mantissa after the shift has at most as many digits
    as lie above the new exponent. *)
Lemma shr_fexp_mantissa (m e : Z) (l : location) :
  0 <= m ->
  let e' := snd (shr_fexp fprec femax m e l) in
  0 <= shr_m (fst (shr_fexp fprec femax m e l))
       < 2 ^ Z.max 0 (Zdigits2 m + e - e').
Proof.
  intros Hm. cbv zeta. rewrite shr_fexp_exponent.
  pose proof (Zdigits2_gt m Hm) as Hg.
  pose proof (Zdigits2_nonneg m) as Hn.
  unfold shr_fexp, shr.
  assert (H0 : shr_m (shr_record_of_loc m l) = m)
    by (destruct l as [|[]]; reflexivity).
  destruct (fexp fprec femax (Zdigits2 m + e) - e) as [|k|k] eqn:E;
    cbn [fst].
  - rewrite H0. replace (Z.max e _) with e by lia.
    replace (Zdigits2 m + e - e) with (Zdigits2 m) by lia.
    rewrite Z.max_r by lia. lia.
  - rewrite iter_shr_1_div by (rewrite H0; lia). rewrite H0.
    replace (Z.max e _) with (e + Zpos k) by lia.
    assert (Hk : 0 < 2 ^ Zpos k) by (apply Z.pow_pos_nonneg; lia).
    split; [apply Z.div_pos; lia|].
    apply Z.div_lt_upper_bound; [lia|].
    destruct (Z.le_gt_cases (Zpos k) (Zdigits2 m)) as [Hle|Hgt].
    + rewrite Z.max_r by lia. rewrite <- Z.pow_add_r by lia.
      replace (Zpos k + (Zdigits2 m + e - (e + Zpos k))) with (Zdigits2 m)
        by lia.
      exact Hg.
    + rewrite Z.max_l by lia. change (2 ^ 0) with 1.
      apply Z.lt_le_trans with (2 ^ Zdigits2 m); [exact Hg|].
      rewrite Z.mul_1_r. apply Z.pow_le_mono_r; lia.
  - rewrite H0. replace (Z.max e _) with e by lia.
    replace (Zdigits2 m + e - e) with (Zdigits2 m) by lia.
    rewrite Z.max_r by lia. lia.
Qed.

Lemma round_nearest_even_le (m : Z) (l : location) :
  0 <= m -> 0 <= round_nearest_even m l <= m + 1.
Proof.
  intros H. unfold round_nearest_even.
  destruct l as [|[]]; try destruct (Z.even m); lia.
Qed.

(** Rounding a number whose digits end below [2^(femax - 1)] yields no
    infinity. *)
Lemma binary_round_aux_finite (s : bool) (m e : Z) (l : location) :
  0 <= m -> e <= femax - fprec - 1 -> Zdigits2 m + e <= femax - 1 ->
  finite (binary_round_aux fprec femax s m e l) = true.
Proof.
  intros Hm He Hd. unfold binary_round_aux.
  pose proof (shr_fexp_exponent m e l) as E1.
  pose proof (shr_fexp_mantissa m e l Hm) as M1. cbv zeta in M1.
  destruct (shr_fexp fprec femax m e l) as [mrs' e'].
  cbn [fst snd] in E1, M1.
  set (m2 := round_nearest_even (shr_m mrs') (loc_of_shr_record mrs')).
  pose proof (round_nearest_even_le (shr_m mrs') (loc_of_shr_record mrs')
                ltac:(lia)) as R. fold m2 in R.
  pose proof (shr_fexp_exponent m2 e' loc_Exact) as E2.
  pose proof (shr_fexp_mantissa m2 e' loc_Exact ltac:(lia)) as M2.
  cbv zeta in M2.
  destruct (shr_fexp fprec femax m2 e' loc_Exact) as [mrs'' e''].
  cbn [fst snd] in E2, M2.
  destruct (shr_m mrs'') as [|q|q]; [reflexivity| |lia].
  assert (Hfin : e'' <= femax - fprec).
  { set (q1 := Z.max 0 (Zdigits2 m + e - e')) in *.
    assert (Hq1 : 0 <= q1) by lia.
    assert (Hm2 : Zdigits2 m2 <= q1 + 1).
    { apply Zdigits2_le; [lia|].
      split; [lia|]. rewrite Z.pow_add_r by lia. change (2 ^ 1) with 2.
      assert (0 < 2 ^ q1) by (apply Z.pow_pos_nonneg; lia). lia. }
    unfold fexp, emin in *. lia. }
  apply Z.leb_le in Hfin. rewrite Hfin. reflexivity.
Qed.

Lemma shift_pos_pow2 (d m : positive) :
  Zpos (shift_pos d m) = Zpos m * 2 ^ Zpos d.
Proof.
  rewrite shift_pos_correct. rewrite Zpower_pos_nat, Zpower_nat_Z.
  rewrite positive_nat_Z. lia.
Qed.

Lemma binary_round_finite (s : bool) (p : positive) :
  Zpos p < 2 ^ (femax - 1) ->
  finite (binary_round fprec femax s p 0) = true.
Proof.
  intros H. unfold binary_round, shl_align.
  assert (Hd : Zdigits2 (Zpos p) <= femax - 1)
    by (apply Zdigits2_le; lia).
  change (Zpos (digits2_pos p)) with (Zdigits2 (Zpos p)).
  destruct (fexp fprec femax (Zdigits2 (Zpos p) + 0) - 0) as [|k|k] eqn:E.
  - apply binary_round_aux_finite; lia.
  - apply binary_round_aux_finite; lia.
  - apply binary_round_aux_finite; try lia.
    change (Pos.iter xO p k) with (shift_pos k p).
    rewrite shift_pos_pow2.
    destruct (Zpos p * 2 ^ Zpos k) as [|q|q] eqn:Eq;
      try (assert (0 < Zpos p * 2 ^ Zpos k)
             by (apply Z.mul_pos_pos; [lia|apply Z.pow_pos_nonneg; lia]);
           lia).
    rewrite <- Eq.
    assert (Hs : Zdigits2 (Zpos p * 2 ^ Zpos k) = Zdigits2 (Zpos p) + Zpos k).
    { rewrite Eq, !Zdigits2_log2, <- Eq.
      rewrite Z.log2_mul_pow2 by lia. lia. }
    rewrite Hs. lia.
Qed.

(** An integer of magnitude below [2^(femax - 1)] converts to a finite
    float. *)
Lemma binary_normalize_finite (n : Z) :
  Z.abs n < 2 ^ (femax - 1) ->
  finite (binary_normalize fprec femax n 0 false) = true.
Proof.
  intros H. unfold binary_normalize.
  destruct n as [|p|p]; [reflexivity| |]; apply binary_round_finite; lia.
Qed.
End InRange.

(** A non-zero integer converts to a non-zero float. *)
Lemma of_int_nonzero {P : Platform} (n : Z) :
  n <> 0 -> is_zero (of_int n) = false.
Proof.
  intros Hn. unfold of_int, binary_normalize.
  pose proof format_ok as [Hp He].
  destruct n as [|m|m]; [contradiction| |];
    apply binary_round_nonzero; unfold emin; lia.
Qed.

(** ** Conversions and squares *)

Section Conversions.
Context {P : Platform}.

Lemma to_float_ok (n : Z) (f : float) : to_float n = Ok f -> f = of_int n.
Proof.
  unfold to_float. destruct (of_int n); intros H;
    try discriminate; inversion H; reflexivity.
Qed.

Lemma to_float_raise (n : Z) (e : exn) :
  to_float n = Raise e -> e = OverflowError.
Proof.
  unfold to_float. destruct (of_int n); intros H;
    try discriminate; inversion H; reflexivity.
Qed.

Lemma to_float_nonzero (n : Z) (f : float) :
  n <> 0 -> to_float n = Ok f -> is_zero f = false.
Proof.
  intros Hn H. apply to_float_ok in H. subst f. now apply of_int_nonzero.
Qed.

(** An integer of magnitude below [2^(emax - 1)] is within the range of
    the floats. *)
Lemma to_float_in_range (n : Z) :
  Z.abs n < 2 ^ (emax - 1) -> in_float_range n.
Proof.
  intros H. unfold in_float_range, to_float.
  pose proof format_ok as [Hp He].
  pose proof (binary_normalize_finite prec emax Hp He n H) as Hf.
  fold (of_int n) in Hf.
  destruct (of_int n); try reflexivity; discriminate.
Qed.

(** The difference of two tick counts is within the range of the floats:
    the conversion in [seconds_between] raises nothing. *)
Lemma ticks_diff_in_range (a b : Z) : in_float_range (ticks_diff a b).
Proof.
  apply to_float_in_range. pose proof ticks_ok as [Hb He].
  unfold ticks_diff, ticks_period.
  assert (Hh : 2 ^ ticks_bits = 2 * 2 ^ (ticks_bits - 1)).
  { rewrite <- Z.pow_succ_r by lia. f_equal. lia. }
  assert (Hpos : 0 < 2 ^ (ticks_bits - 1)) by (apply Z.pow_pos_nonneg; lia).
  assert (Hle : 2 ^ (ticks_bits - 1) < 2 ^ (emax - 1))
    by (apply Z.pow_lt_mono_r; lia).
  rewrite Hh.
  replace (2 * 2 ^ (ticks_bits - 1) / 2) with (2 ^ (ticks_bits - 1))
    by (rewrite Z.mul_comm, Z.div_mul; lia).
  set (h := 2 ^ (ticks_bits - 1)) in *.
  pose proof (Z.mod_pos_bound (a - b + h) (2 * h) ltac:(lia)) as Hm.
  set (x := (a - b + h) mod (2 * h)) in *.
  clearbody x h. lia.
Qed.

(** [utime.ticks_diff(a, b) / 1000.0] written out, with the conversion of
    the integer and the division by a float that could be zero: it
    raises nothing and is [seconds_between a b]. *)
Lemma seconds_between_eq (a b : Z) :
  (ticks <- to_float (ticks_diff a b) ;; truediv ticks (of_int 1000))
  = Ok (seconds_between a b).
Proof.
  rewrite ticks_diff_in_range. cbn [bind]. unfold truediv.
  rewrite of_int_nonzero by discriminate. reflexivity.
Qed.

Lemma square_nonneg (a r : float) :
  square_documented -> square a = Ok r -> nonneg r = true.
Proof. intros H E. specialize (H a). rewrite E in H. apply H. Qed.

Lemma square_raise (a : float) (e : exn) :
  square_documented -> square a = Raise e -> e = OverflowError.
Proof. intros H E. specialize (H a). rewrite E in H. exact H. Qed.

Lemma math_sqrt_nonneg (a : float) :
  nonneg a = true -> math_sqrt a = Ok (fsqrt a).
Proof.
  intros H. unfold math_sqrt, zero.
  rewrite SFltb_nonneg_zero; [reflexivity | exact H].
Qed.

Lemma math_sqrt_sum_squares (a b a2 b2 : float) :
  square_documented ->
  square a = Ok a2 -> square b = Ok b2 ->
  math_sqrt (a2 + b2)%py = Ok (fsqrt (a2 + b2)%py).
Proof.
  intros H Ha Hb. apply math_sqrt_nonneg.
  apply SFadd_nonneg; eapply square_nonneg; eassumption.
Qed.
End Conversions.

(** The correctly rounded square meets the documented behaviour of [**]. *)
Lemma rounded_square_documented (fprec femax : Z) (a : float) :
  match Reference.rounded_square fprec femax a with
  | Ok r => nonneg r = true /\ (is_nan a = false -> is_nan r = false)
  | Raise e => e = OverflowError
  end.
Proof.
  pose proof (SFmul_self_nonneg fprec femax a) as Hn.
  assert (Hs : is_nan a = false -> is_nan (SFmul fprec femax a a) = false).
  { destruct a as [s|s| |s m e]; simpl; intros H;
      try discriminate; try reflexivity.
    pose proof (binary_round_aux_signed fprec femax (xorb s s)
                  (Zpos (m * m)) (e + e) loc_Exact) as Hr.
    destruct (binary_round_aux _ _ _ _ _ _); simpl in *;
      try reflexivity. exfalso. apply Hr. lia. }
  unfold Reference.rounded_square.
  destruct a as [s|s| |s m e]; try (split; [exact Hn | exact Hs]).
  destruct (SFmul fprec femax (S754_finite s m e) (S754_finite s m e));
    try (split; [exact Hn | exact Hs]).
  reflexivity.
Qed.

Lemma binary64_square_documented :
  square_documented (P := Reference.binary64).
Proof. intros a. apply rounded_square_documented. Qed.

Lemma binary32_square_documented :
  square_documented (P := Reference.binary32).
Proof. intros a. apply rounded_square_documented. Qed.

(** ** The filter *)

Module F := ComplementaryFilter.

Section FilterFacts.
Context {P : Platform}.

Lemma _get_accel_pitch_eq (accel : Vec.t) (y2 z2 : float) :
  square_documented ->
  square (Vec.y accel) = Ok y2 -> square (Vec.z accel) = Ok z2 ->
  F._get_accel_pitch accel =
  Ok (atan2 (- Vec.x accel)%py (F.clamp (fsqrt (y2 + z2)%py))).
Proof.
  intros H Hy Hz. unfold F._get_accel_pitch, F.pitch_denominator.
  rewrite Hy, Hz. cbn [bind].
  rewrite (math_sqrt_sum_squares _ _ _ _ H Hy Hz). reflexivity.
Qed.

Lemma _get_accel_roll_eq (accel : Vec.t) (x2 z2 : float) :
  square_documented ->
  square (Vec.x accel) = Ok x2 -> square (Vec.z accel) = Ok z2 ->
  F._get_accel_roll accel =
  Ok (atan2 (Vec.y accel) (F.clamp (fsqrt (x2 + z2)%py))).
Proof.
  intros H Hx Hz. unfold F._get_accel_roll, F.roll_denominator.
  rewrite Hx, Hz. cbn [bind].
  rewrite (math_sqrt_sum_squares _ _ _ _ H Hx Hz). reflexivity.
Qed.

(** What [update] leaves and returns once the accelerometer angles are
    there and both weights are set. *)
Lemma update_eq (self : F.t) (accel gyro : Vec.t) (dt : option float)
    (now : Z) (pw rw accel_pitch accel_roll : float) :
  F.pitch_weight self = Some pw ->
  F.roll_weight self = Some rw ->
  F._get_accel_pitch accel = Ok accel_pitch ->
  F._get_accel_roll accel = Ok accel_roll ->
  let step := F.time_step self dt now in
  let new_pitch :=
    (pw * (F.pitch self + Vec.y gyro * step) + (one - pw) * accel_pitch)%py in
  let new_roll :=
    (rw * (F.roll self + Vec.x gyro * step) + (one - rw) * accel_roll)%py in
  F.update self accel gyro dt now
    = Ok (F.Build (F.update_rate self) (Some pw) (Some rw) new_pitch new_roll
            now step,
          Angles.Build new_pitch new_roll).
Proof.
  intros Hp Hr Hap Har. cbv zeta. unfold F.update.
  rewrite Hap, Har. destruct self as [u p r pi ro lu d].
  cbn in Hp, Hr. subst p r. reflexivity.
Qed.

(** C1, as the code has it.  On a filter whose two weights are set, and
    for an accelerometer vector whose components have squares within the
    range of the floats, [update] with an explicit [dt] (positive or not)
    stores and returns
    [pitch_weight * (pitch + gyro.y * dt) + (1 - pitch_weight) * accel_pitch]
    and
    [roll_weight * (roll + gyro.x * dt) + (1 - roll_weight) * accel_roll].
    [accel_pitch] is [atan2 (-accel.x)] of the clamped
    [sqrt (accel.y^2 + accel.z^2)] and [accel_roll] is [atan2 accel.y] of
    the clamped [sqrt (accel.x^2 + accel.z^2)], where clamping replaces a
    root of magnitude below [1e-10] by [1e-10], or by [-1e-10] if the root
    is negative.  The weights and the update rate stay, [last_update]
    becomes the tick count read, and [dt] is stored. *)
Theorem update_blends_gyro_and_accel
    (self : F.t) (accel gyro : Vec.t) (dt : float) (now : Z)
    (pw rw x2 y2 z2 : float) :
  square_documented ->
  F.pitch_weight self = Some pw ->
  F.roll_weight self = Some rw ->
  square (Vec.x accel) = Ok x2 ->
  square (Vec.y accel) = Ok y2 ->
  square (Vec.z accel) = Ok z2 ->
  let tiny := decimal 1 (10 ^ 10) in
  let clamped := fun root : float =>
    if (SFabs root < tiny)%py
    then (if (zero <= root)%py then tiny else (- tiny)%py)
    else root in
  let accel_pitch :=
    atan2 (- Vec.x accel)%py (clamped (fsqrt (y2 + z2)%py)) in
  let accel_roll :=
    atan2 (Vec.y accel) (clamped (fsqrt (x2 + z2)%py)) in
  let new_pitch :=
    (pw * (F.pitch self + Vec.y gyro * dt) + (one - pw) * accel_pitch)%py in
  let new_roll :=
    (rw * (F.roll self + Vec.x gyro * dt) + (one - rw) * accel_roll)%py in
  F.update self accel gyro (Some dt) now
    = Ok (F.Build (F.update_rate self) (Some pw) (Some rw) new_pitch new_roll
            now dt,
          Angles.Build new_pitch new_roll).
Proof.
  intros H Hp Hr Hx Hy Hz. cbv zeta.
  rewrite (update_eq self accel gyro (Some dt) now pw rw _ _ Hp Hr
             (_get_accel_pitch_eq accel y2 z2 H Hy Hz)
             (_get_accel_roll_eq accel x2 z2 H Hx Hz)).
  reflexivity.
Qed.

(** C8. After [reset] the stored pitch and roll are 0, [get_angles()]
    returns (0, 0), and the two weights are what they were. *)
Theorem reset_zeroes_angles_keeps_weights (self : F.t) (now : Z) :
  let self' := F.reset self now in
  F.pitch self' = zero /\
  F.roll self' = zero /\
  snd (F.get_angles self' false) = Angles.Build zero zero /\
  F.pitch_weight self' = F.pitch_weight self /\
  F.roll_weight self' = F.roll_weight self.
Proof. repeat split. Qed.

(** C9. [get_angles] leaves the filter as it found it; a second call, in
    either unit, returns what it would have returned at once; and with
    [in_degrees] the result is the stored angles put through
    [math.degrees]. *)
Theorem get_angles_reads_only (self : F.t) (in_degrees again : bool) :
  fst (F.get_angles self in_degrees) = self /\
  F.get_angles (fst (F.get_angles self in_degrees)) again
    = F.get_angles self again /\
  snd (F.get_angles self false) = Angles.Build (F.pitch self) (F.roll self) /\
  snd (F.get_angles self true)
    = Angles.Build (math_degrees (F.pitch self)) (math_degrees (F.roll self)).
Proof. destruct in_degrees; repeat split. Qed.

(** C3, as the code has it.  [set_weights] fails exactly when a supplied
    value lies outside [[0, 1]].  The values are checked in the order
    [gyro_weight], [pitch_weight], [roll_weight] and the call returns at the
    first one outside: that value and the later ones are not stored, the
    earlier ones are.  When the first supplied value is the one outside, the
    filter is left exactly as it was. *)
Theorem set_weights_stops_at_first_rejection
    (self : F.t) (gyro_weight pitch_weight roll_weight : option float) :
  let after_gyro := applied gyro_weight both_weights self in
  let after_pitch := applied pitch_weight F.with_pitch_weight after_gyro in
  let after_roll := applied roll_weight F.with_roll_weight after_pitch in
  let result := F.set_weights self gyro_weight pitch_weight roll_weight in
  snd result
    = negb (outside gyro_weight || outside pitch_weight || outside roll_weight)
  /\ fst result
       = (if outside gyro_weight then self
          else if outside pitch_weight then after_gyro
          else if outside roll_weight then after_pitch
          else after_roll)
  /\ (outside gyro_weight = true -> fst result = self)
  /\ (gyro_weight = None -> outside pitch_weight = true -> fst result = self)
  /\ (gyro_weight = None -> pitch_weight = None ->
      outside roll_weight = true -> fst result = self).
Proof.
  cbv zeta. unfold F.set_weights, F.checked, outside, applied, both_weights.
  destruct gyro_weight as [g|], pitch_weight as [p|], roll_weight as [r|];
    repeat match goal with
           | |- context [F.in_unit_interval ?w] =>
             destruct (F.in_unit_interval w)
           end; simpl; repeat split; intros; congruence.
Qed.
End FilterFacts.

Section TimeStep.
Context {P : Platform}.

(** C2, as the code has it.  An explicit [dt] is integrated as given,
    whatever its sign.  When [dt] is omitted, the interval measured on the
    clock is integrated if it is positive, and the filter's stored [dt]
    otherwise.  The stored [dt] is [1 / update_rate] on a new filter and
    the time step of the latest [update] afterwards.  [after step] is the
    filter an update leaves that integrates [step]. *)
Theorem update_time_step
    (self : F.t) (accel gyro : Vec.t) (now : Z)
    (pw rw accel_pitch accel_roll : float) :
  F.pitch_weight self = Some pw ->
  F.roll_weight self = Some rw ->
  F._get_accel_pitch accel = Ok accel_pitch ->
  F._get_accel_roll accel = Ok accel_roll ->
  let measured := seconds_between now (F.last_update self) in
  let after := fun step : float =>
    F.Build (F.update_rate self) (Some pw) (Some rw)
      (pw * (F.pitch self + Vec.y gyro * step) + (one - pw) * accel_pitch)%py
      (rw * (F.roll self + Vec.x gyro * step) + (one - rw) * accel_roll)%py
      now step in
  let returned := fun step : float =>
    Ok (after step,
        Angles.Build (F.pitch (after step)) (F.roll (after step))) in
  (forall d, F.update self accel gyro (Some d) now = returned d)
  /\ ((measured <= zero)%py = true ->
      F.update self accel gyro None now = returned (F.dt self))
  /\ ((measured <= zero)%py = false ->
      F.update self accel gyro None now = returned measured)
  /\ (forall step, F.dt (after step) = step)
  /\ (forall update_rate gyro_weight t new,
      F.__init__ update_rate gyro_weight t = Ok new ->
      F.dt new = (one / of_int update_rate)%py).
Proof.
  intros Hp Hr Hap Har. cbv zeta.
  pose proof (fun dt => update_eq self accel gyro dt now pw rw
                          accel_pitch accel_roll Hp Hr Hap Har) as Hu.
  cbv zeta in Hu.
  repeat split.
  - intros d. rewrite Hu. reflexivity.
  - intros H. rewrite Hu. unfold F.time_step. rewrite H. reflexivity.
  - intros H. rewrite Hu. unfold F.time_step. rewrite H. reflexivity.
  - intros update_rate gyro_weight t new. unfold F.__init__.
    destruct (to_float update_rate) as [rate|e] eqn:Hrate;
      cbn [bind]; [|discriminate].
    apply to_float_ok in Hrate. subst rate. unfold truediv.
    destruct (is_zero (of_int update_rate)); cbn [bind]; [discriminate|].
    intros H. inversion H. reflexivity.
Qed.
End TimeStep.

Section DoublePrecision.
Local Existing Instance Reference.binary64.

(** [ComplementaryFilter(100)] built at tick 0 is [filter64]. *)
Lemma filter64_is_new :
  F.__init__ 100 F.default_gyro_weight 0 = Ok filter64.
Proof. vm_compute. reflexivity. Qed.

(** C2 fails as stated.  On a new filter of rate 100 (nominal period 0.01),
    [update(level, turning, dt=-1.0)] integrates the negative step: the
    pitch becomes -0.95, not the 0.0095 that the nominal period gives.  The
    step -1.0 is then stored, so that a following [update] without [dt] at
    the same tick (measured interval 0) integrates -1.0 again and the pitch
    becomes -1.8524999999999998. *)
Lemma nonpositive_dt_is_integrated :
  let backwards := F.Build 100 (Some (f64 95 100)) (Some (f64 95 100))
                     (f64 (-95) 100) zero 5 (f64 (-1) 1) in
  let further := S754_finite true 8342918309703843 (-52) in
  (f64 (-1) 1 <= zero)%py = true
  /\ truediv one (of_int 100) = Ok (f64 1 100)
  /\ F.update filter64 level64 turning64 (Some (f64 (-1) 1)) 5
       = Ok (backwards, Angles.Build (f64 (-95) 100) zero)
  /\ F.update filter64 level64 turning64 (Some (f64 1 100)) 5
       = Ok (F.Build 100 (Some (f64 95 100)) (Some (f64 95 100))
               (f64 95 10000) zero 5 (f64 1 100),
             Angles.Build (f64 95 10000) zero)
  /\ (seconds_between 5 (F.last_update backwards) <= zero)%py = true
  /\ F.update backwards level64 turning64 None 5
       = Ok (F.Build 100 (Some (f64 95 100)) (Some (f64 95 100))
               further zero 5 (f64 (-1) 1),
             Angles.Build further zero).
Proof. vm_compute. repeat split. Qed.

(** C1 at work where the clamp acts.  With the sensor's x axis up,
    [(1, 0, 0)], the root under the pitch is 0 and [1e-10] takes its place:
    the accelerometer pitch is [atan2(-1.0, 1e-10)], that is
    -1.5707963266948965, where [atan2(-1.0, 0.0)] would be
    -1.5707963267948966.  A new filter turning at 1 rad/s about the y axis
    with a step of 0.01 s gets the pitch [0.95 * (0 + 1 * 0.01) +
    0.05 * -1.5707963266948965], that is -0.0690398163347449, and the
    roll 0. *)
Lemma update_blends_witness :
  let pitch := S754_finite true 4974843057902154 (-56) in
  F.pitch_denominator sideways64 = Ok (f64 1 (10 ^ 10))
  /\ F._get_accel_pitch sideways64
       = Ok (S754_finite true 7074237751578080 (-52))
  /\ F.update filter64 sideways64 turning64 (Some (f64 1 100)) 5
       = Ok (F.Build 100 (Some (f64 95 100)) (Some (f64 95 100))
               pitch zero 5 (f64 1 100),
             Angles.Build pitch zero).
Proof.
  split; [vm_compute; reflexivity|].
  split; [vm_compute; reflexivity|].
  refine (eq_trans
            (update_blends_gyro_and_accel filter64 sideways64 turning64
               (f64 1 100) 5 (f64 95 100) (f64 95 100) (f64 1 1) zero zero
               binary64_square_documented eq_refl eq_refl eq_refl eq_refl
               eq_refl) _).
  vm_compute. reflexivity.
Defined.

(** C1 fails as stated.  [ComplementaryFilter(100, 1.5)] is built without
    weights, and [update] on it raises [AttributeError]; and on a new
    filter with its weights set, [update] with the accelerometer vector
    [(0, 1e200, 0)] raises [OverflowError]. *)
Lemma update_without_weights_raises :
  let weightless := F.Build 100 None None zero zero 0 (f64 1 100) in
  F.in_unit_interval (f64 3 2) = false
  /\ F.__init__ 100 (f64 3 2) 0 = Ok weightless
  /\ F.update weightless level64 turning64 (Some (f64 1 100)) 5
       = Raise AttributeError
  /\ F.update filter64 (Vec.Build zero (f64 (10 ^ 200) 1) zero) turning64
       (Some (f64 1 100)) 5
       = Raise OverflowError.
Proof. vm_compute. repeat split. Qed.

(** C2 as the code has it, at work: a new filter updated without [dt] at
    the tick it was built at measures the interval 0 and integrates its
    stored [dt], 0.01. *)
Lemma update_time_step_witness :
  (seconds_between 0 (F.last_update filter64) <= zero)%py = true
  /\ F.dt filter64 = f64 1 100
  /\ F.update filter64 level64 turning64 None 0
       = Ok (F.Build 100 (Some (f64 95 100)) (Some (f64 95 100))
               (f64 95 10000) zero 0 (f64 1 100),
             Angles.Build (f64 95 10000) zero).
Proof.
  split; [vm_compute; reflexivity|].
  split; [reflexivity|].
  refine (eq_trans
            (proj1 (proj2
               (update_time_step filter64 level64 turning64 0
                  (f64 95 100) (f64 95 100) (S754_zero true) zero
                  eq_refl eq_refl eq_refl eq_refl)) eq_refl) _).
  vm_compute. reflexivity.
Defined.


(** C3 fails as stated.  On a filter with both weights 0.95,
    [set_weights(gyro_weight=0.5, pitch_weight=2.0)] returns [False] and
    yet leaves both weights at 0.5. *)
Lemma set_weights_applies_before_rejecting :
  F.pitch_weight filter64 = Some (f64 95 100)
  /\ F.roll_weight filter64 = Some (f64 95 100)
  /\ F.in_unit_interval (f64 95 100) = true
  /\ F.in_unit_interval (f64 2 1) = false
  /\ F.set_weights filter64 (Some (f64 1 2)) (Some (f64 2 1)) None
       = (F.Build 100 (Some (f64 1 2)) (Some (f64 1 2)) zero zero 0
            (f64 1 100), false)
  /\ f64 1 2 <> f64 95 100.
Proof. vm_compute. repeat split. discriminate. Qed.
End DoublePrecision.

(** ** The processor *)

Module Pr := OrientProcessor.

Section ProcessorFacts.
Context {P : Platform}.

Lemma ticks_period_even :
  0 < ticks_bits -> ticks_period = 2 * 2 ^ (ticks_bits - 1).
Proof.
  intros H. unfold ticks_period.
  rewrite <- Z.pow_succ_r by lia. f_equal. lia.
Qed.

(** A forward step of less than half a period is measured exactly, across
    the wrap of the counter too. *)
Lemma ticks_diff_forward (t d : Z) :
  0 < ticks_bits -> 0 <= d < 2 ^ (ticks_bits - 1) ->
  ticks_diff (tick (t + d)) (tick t) = d.
Proof.
  intros Hb Hd. unfold ticks_diff, tick.
  rewrite (ticks_period_even Hb).
  set (h := 2 ^ (ticks_bits - 1)) in *.
  replace (2 * h / 2) with h by (rewrite Z.mul_comm, Z.div_mul; lia).
  rewrite <- Z.add_mod_idemp_l by lia.
  rewrite <- Zminus_mod.
  rewrite Z.add_mod_idemp_l by lia.
  replace (t + d - t + h) with (d + h) by lia.
  rewrite Z.mod_small; lia.
Qed.

Lemma half_period_large : 5 <= ticks_bits -> 16 <= 2 ^ (ticks_bits - 1).
Proof.
  intros H. change 16 with (2 ^ 4).
  apply Z.pow_le_mono_r; lia.
Qed.

(** Both angle functions return once the squares do. *)
Lemma accel_angles_return (accel : Vec.t) :
  square_documented -> squares_return accel ->
  exists accel_pitch accel_roll,
    F._get_accel_pitch accel = Ok accel_pitch /\
    F._get_accel_roll accel = Ok accel_roll.
Proof.
  intros H (x2 & y2 & z2 & Hx & Hy & Hz).
  rewrite (_get_accel_pitch_eq accel y2 z2 H Hy Hz).
  rewrite (_get_accel_roll_eq accel x2 z2 H Hx Hz).
  eexists. eexists. split; reflexivity.
Qed.

(** A filter whose weights are set does not raise in [update] on a vector
    whose squares are within range, and keeps its weights. *)
Lemma filter_update_ok (f : F.t) (accel gyro : Vec.t) (dt : option float)
    (now : Z) :
  square_documented -> squares_return accel ->
  ready f ->
  exists f' angles,
    F.update f accel gyro dt now = Ok (f', angles) /\
    F.pitch_weight f' = F.pitch_weight f /\
    F.roll_weight f' = F.roll_weight f.
Proof.
  intros H Hs [Hp Hr].
  destruct (accel_angles_return accel H Hs) as (ap & ar & Hap & Har).
  destruct (F.pitch_weight f) as [pw|] eqn:Epw; [|contradiction].
  destruct (F.roll_weight f) as [rw|] eqn:Erw; [|contradiction].
  rewrite (update_eq f accel gyro dt now pw rw ap ar Epw Erw Hap Har).
  eexists. eexists. split; [reflexivity|]. split; reflexivity.
Qed.

(** An update returns only on a filter whose weights are set, and leaves
    them as they were. *)
Lemma filter_update_weights (f f' : F.t) (accel gyro : Vec.t)
    (dt : option float) (now : Z) (angles : Angles.t) :
  F.update f accel gyro dt now = Ok (f', angles) ->
  ready f /\
  F.pitch_weight f' = F.pitch_weight f /\
  F.roll_weight f' = F.roll_weight f.
Proof.
  unfold F.update, ready.
  destruct (F._get_accel_pitch accel); cbn [bind]; [|discriminate].
  destruct (F._get_accel_roll accel); cbn [bind]; [|discriminate].
  destruct f as [rate [pw|] [rw|] p r last d]; cbn; try discriminate.
  intros H. inversion H. cbn. repeat split; discriminate.
Qed.

Lemma filter_update_ready (f f' : F.t) (accel gyro : Vec.t)
    (dt : option float) (now : Z) (angles : Angles.t) :
  F.update f accel gyro dt now = Ok (f', angles) -> ready f -> ready f'.
Proof.
  intros H Hf. apply filter_update_weights in H as (_ & Hp & Hr).
  unfold ready. rewrite Hp, Hr. exact Hf.
Qed.

(** An update that is due is the filter's update on the corrected
    gyroscope reading and the measured interval. *)
Lemma update_due (self : Pr.t) (accel gyro : Vec.t)
    (now_gate now now_filter : Z) :
  Pr.min_interval self <= ticks_diff now_gate (Pr.last_update self) ->
  Pr.update self accel gyro now_gate now now_filter =
  ' (f, angles) <-
      F.update (Pr.filter self) accel
        (Vec.Build (Vec.x gyro - Vec.x (Pr.gyro_offset self))%py
                   (Vec.y gyro - Vec.y (Pr.gyro_offset self))%py
                   (Vec.z gyro - Vec.z (Pr.gyro_offset self))%py)
        (Some (seconds_between now (Pr.last_update self))) now_filter ;;
  Ok (Pr.with_filter f (Pr.with_last_update now self), Some angles).
Proof.
  intros H. unfold Pr.update, Pr.should_update.
  apply Z.leb_le in H. rewrite H. reflexivity.
Qed.

Lemma update_not_due (self : Pr.t) (accel gyro : Vec.t)
    (now_gate now now_filter : Z) :
  ticks_diff now_gate (Pr.last_update self) < Pr.min_interval self ->
  Pr.update self accel gyro now_gate now now_filter = Ok (self, None).
Proof.
  intros H. unfold Pr.update, Pr.should_update.
  apply Z.leb_gt in H. rewrite H. reflexivity.
Qed.

Lemma update_accepts (self : Pr.t) (accel gyro : Vec.t)
    (now_gate now now_filter : Z) :
  square_documented -> squares_return accel ->
  ready (Pr.filter self) ->
  Pr.min_interval self <= ticks_diff now_gate (Pr.last_update self) ->
  exists self' angles,
    Pr.update self accel gyro now_gate now now_filter
      = Ok (self', Some angles) /\
    Pr.last_update self' = now /\
    Pr.min_interval self' = Pr.min_interval self /\
    ready (Pr.filter self').
Proof.
  intros Hsq Hs Hr Hd. rewrite (update_due _ _ _ _ _ _ Hd).
  destruct (filter_update_ok (Pr.filter self) accel
              (Vec.Build (Vec.x gyro - Vec.x (Pr.gyro_offset self))%py
                         (Vec.y gyro - Vec.y (Pr.gyro_offset self))%py
                         (Vec.z gyro - Vec.z (Pr.gyro_offset self))%py)
              (Some (seconds_between now (Pr.last_update self))) now_filter
              Hsq Hs Hr)
    as (f' & angles & E & Hp & Hw).
  rewrite E. simpl. exists (Pr.with_filter f' (Pr.with_last_update now self)), angles.
  repeat split; simpl; unfold ready in *; try rewrite Hp; try rewrite Hw;
    tauto.
Qed.

(** C4.  A call of [update] made before [min_interval] has elapsed since
    the last accepted one returns [None] and leaves the processor, its
    [last_update] included, exactly as it was; an accepted call is at
    least [min_interval] after the last accepted one and moves
    [last_update] to its own tick count.  A processor of rate 100 has
    [min_interval] 10, and with calls at [t], [t + 5] and [t + 11] ms, the
    first being due, the calls are accepted, skipped and accepted; the
    two that are accepted get accelerometer vectors whose squares are
    within the range of the floats. *)
Theorem update_is_rate_gated (self : Pr.t) :
  (forall accel gyro now_gate now now_filter,
      ticks_diff now_gate (Pr.last_update self) < Pr.min_interval self ->
      Pr.update self accel gyro now_gate now now_filter = Ok (self, None))
  /\ (forall accel gyro now_gate now now_filter self' angles,
      Pr.update self accel gyro now_gate now now_filter
        = Ok (self', Some angles) ->
      Pr.min_interval self <= ticks_diff now_gate (Pr.last_update self) /\
      Pr.last_update self' = now)
  /\ (literals_ok ->
      forall t0 t1 new,
      Pr.__init__ 100 t0 t1 = Ok new ->
      Pr.min_interval new = 10 /\ ready (Pr.filter new))
  /\ (forall t accel1 gyro1 accel2 gyro2 accel3 gyro3,
      square_documented ->
      squares_return accel1 ->
      squares_return accel3 ->
      5 <= ticks_bits ->
      Pr.min_interval self = 10 ->
      ready (Pr.filter self) ->
      Pr.min_interval self <= ticks_diff (tick t) (Pr.last_update self) ->
      exists first angles1 third angles3,
        Pr.update self accel1 gyro1 (tick t) (tick t) (tick t)
          = Ok (first, Some angles1) /\
        Pr.update first accel2 gyro2
            (tick (t + 5)) (tick (t + 5)) (tick (t + 5))
          = Ok (first, None) /\
        Pr.last_update first = tick t /\
        Pr.update first accel3 gyro3
            (tick (t + 11)) (tick (t + 11)) (tick (t + 11))
          = Ok (third, Some angles3) /\
        Pr.last_update third = tick (t + 11)).
Proof.
  split; [|split; [|split]].
  - intros. apply update_not_due. assumption.
  - intros accel gyro now_gate now now_filter self' angles H.
    destruct (Z.leb_spec (Pr.min_interval self)
                (ticks_diff now_gate (Pr.last_update self))) as [Hd|Hd].
    + split; [exact Hd|].
      rewrite (update_due _ _ _ _ _ _ Hd) in H.
      destruct (F.update _ _ _ _ _) as [[f a]|e]; simpl in H; [|discriminate].
      inversion H. reflexivity.
    + rewrite (update_not_due _ _ _ _ _ _ Hd) in H. discriminate.
  - intros Hl t0 t1 new. unfold Pr.__init__, F.__init__, floordiv.
    destruct (to_float 100) as [rate|e]; cbn [bind]; [|discriminate].
    destruct (truediv one rate) as [d|e]; simpl; [|discriminate].
    intros H. inversion H; subst; simpl. split; [reflexivity|].
    unfold ready, F.set_weights, F.checked.
    destruct Hl as [Hl _]. rewrite Hl. simpl. split; discriminate.
  - intros t accel1 gyro1 accel2 gyro2 accel3 gyro3 Hsq Hs1 Hs3 Hb Hi Hr Hd.
    pose proof (half_period_large Hb) as Hh.
    assert (Hb' : 0 < ticks_bits) by lia.
    destruct (update_accepts self accel1 gyro1 (tick t) (tick t) (tick t)
                Hsq Hs1 Hr Hd)
      as (first & angles1 & E1 & L1 & I1 & R1).
    assert (D5 : ticks_diff (tick (t + 5)) (Pr.last_update first) = 5)
      by (rewrite L1; apply ticks_diff_forward; lia).
    assert (D11 : ticks_diff (tick (t + 11)) (Pr.last_update first) = 11)
      by (rewrite L1; apply ticks_diff_forward; lia).
    destruct (update_accepts first accel3 gyro3
                (tick (t + 11)) (tick (t + 11)) (tick (t + 11)) Hsq Hs3 R1)
      as (third & angles3 & E3 & L3 & _); [lia|].
    exists first, angles1, third, angles3.
    repeat split; try assumption.
    apply update_not_due. lia.
Qed.
End ProcessorFacts.

Section Calibration.
Context {P : Platform}.

Lemma accumulate_constant (read_gyro_func : nat -> Vec.t) (b : Vec.t) :
  (forall i, read_gyro_func i = b) ->
  forall count i sum,
  Pr.accumulate read_gyro_func count i sum =
  Vec.Build (Nat.iter count (fun s => s + Vec.x b)%py (Vec.x sum))
            (Nat.iter count (fun s => s + Vec.y b)%py (Vec.y sum))
            (Nat.iter count (fun s => s + Vec.z b)%py (Vec.z sum)).
Proof.
  intros Hb. induction count as [|count IH]; intros i sum.
  - destruct sum; reflexivity.
  - cbn [Pr.accumulate]. rewrite IH, Hb. cbn [Vec.x Vec.y Vec.z].
    rewrite !Nat.iter_succ_r. reflexivity.
Qed.

(** The mean on one axis, for a count of at least 1 that is within the
    range of the floats. *)
Lemma mean_positive (sum : float) (samples : Z) :
  1 <= samples -> in_float_range samples ->
  Pr.mean sum samples = Ok (sum / of_int samples)%py.
Proof.
  intros H Hr. unfold Pr.mean.
  replace (0 <? samples) with true by (symmetry; apply Z.ltb_lt; lia).
  rewrite Hr. cbn [bind]. unfold truediv.
  rewrite of_int_nonzero by lia. reflexivity.
Qed.

(** For a count below 0. *)
Lemma mean_negative (sum : float) (samples : Z) :
  samples < 0 -> Pr.mean sum samples = Ok (S754_zero true).
Proof.
  intros H. unfold Pr.mean.
  replace (0 <? samples) with false by (symmetry; apply Z.ltb_ge; lia).
  replace (samples =? 0) with false by (symmetry; apply Z.eqb_neq; lia).
  reflexivity.
Qed.

(** With a sample count of at least 1 that is within the range of the
    floats no division of [calibrate_gyro] raises, and the offset is the
    only field assigned. *)
Lemma calibrate_gyro_ok (self : Pr.t) (read_gyro_func : nat -> Vec.t)
    (samples : Z) :
  1 <= samples -> in_float_range samples ->
  let sum := Pr.accumulate read_gyro_func (Z.to_nat samples) O
               (Vec.Build zero zero zero) in
  let offset := Vec.Build (Vec.x sum / of_int samples)%py
                          (Vec.y sum / of_int samples)%py
                          (Vec.z sum / of_int samples)%py in
  Pr.calibrate_gyro self read_gyro_func samples
    = Ok (Pr.with_gyro_offset offset self, offset).
Proof.
  intros H Hr. cbv zeta. unfold Pr.calibrate_gyro.
  rewrite !mean_positive by assumption. reflexivity.
Qed.

(** With a sample count below 0 the three quotients are negative zeros. *)
Lemma calibrate_gyro_below_zero (self : Pr.t) (read_gyro_func : nat -> Vec.t)
    (samples : Z) :
  samples < 0 ->
  let offset := Vec.Build (S754_zero true) (S754_zero true)
                          (S754_zero true) in
  Pr.calibrate_gyro self read_gyro_func samples
    = Ok (Pr.with_gyro_offset offset self, offset).
Proof.
  intros H. cbv zeta. unfold Pr.calibrate_gyro.
  rewrite !mean_negative by assumption. reflexivity.
Qed.

(** C10.  With a sample count of at least 1, [calibrate_gyro] returns and
    assigns [gyro_offset] only: the filter with its pitch, roll and
    weights, [accel_offset], [min_interval], [last_update] and
    [update_rate] are what they were.  The count is within the range of
    the floats: the loop over a count beyond it ends in the
    [OverflowError] of the division. *)
Theorem calibrate_gyro_assigns_offset_only
    (self : Pr.t) (read_gyro_func : nat -> Vec.t) (samples : Z) :
  1 <= samples ->
  in_float_range samples ->
  exists self' offset,
    Pr.calibrate_gyro self read_gyro_func samples = Ok (self', offset) /\
    Pr.gyro_offset self' = offset /\
    Pr.filter self' = Pr.filter self /\
    F.pitch (Pr.filter self') = F.pitch (Pr.filter self) /\
    F.roll (Pr.filter self') = F.roll (Pr.filter self) /\
    F.pitch_weight (Pr.filter self') = F.pitch_weight (Pr.filter self) /\
    F.roll_weight (Pr.filter self') = F.roll_weight (Pr.filter self) /\
    Pr.accel_offset self' = Pr.accel_offset self /\
    Pr.min_interval self' = Pr.min_interval self /\
    Pr.last_update self' = Pr.last_update self /\
    Pr.update_rate self' = Pr.update_rate self.
Proof.
  intros H Hr.
  eexists. eexists. split.
  - apply calibrate_gyro_ok; assumption.
  - repeat split.
Qed.

(** C6, as the code has it.  When every sample reads [b] and the sample
    count is at least 1 and within the range of the floats,
    [calibrate_gyro] replaces [gyro_offset], whatever it was, by the
    rounded mean of the samples on each axis, and returns it.  From then
    on every accepted [update] of a processor that holds this offset hands
    the filter the gyroscope reading minus exactly this offset, axis by
    axis, and keeps the offset. *)
Theorem calibrate_gyro_fixed_source
    (self : Pr.t) (read_gyro_func : nat -> Vec.t) (b : Vec.t) (samples : Z) :
  (forall i, read_gyro_func i = b) ->
  1 <= samples ->
  in_float_range samples ->
  let offset := Vec.Build (constant_mean samples (Vec.x b))
                          (constant_mean samples (Vec.y b))
                          (constant_mean samples (Vec.z b)) in
  Pr.calibrate_gyro self read_gyro_func samples
    = Ok (Pr.with_gyro_offset offset self, offset)
  /\ forall later accel gyro now_gate now now_filter later' angles,
       Pr.gyro_offset later = offset ->
       Pr.update later accel gyro now_gate now now_filter
         = Ok (later', Some angles) ->
       exists f,
         F.update (Pr.filter later) accel
           (Vec.Build (Vec.x gyro - Vec.x offset)%py
                      (Vec.y gyro - Vec.y offset)%py
                      (Vec.z gyro - Vec.z offset)%py)
           (Some (seconds_between now (Pr.last_update later))) now_filter
           = Ok (f, angles) /\
         Pr.filter later' = f /\
         Pr.gyro_offset later' = offset.
Proof.
  intros Hb Hs Hr. cbv zeta. split.
  - rewrite calibrate_gyro_ok by assumption. cbv zeta.
    rewrite (accumulate_constant read_gyro_func b Hb). reflexivity.
  - intros later accel gyro now_gate now now_filter later' angles Ho H.
    destruct (Z.leb_spec (Pr.min_interval later)
                (ticks_diff now_gate (Pr.last_update later))) as [Hd|Hd].
    + rewrite (update_due _ _ _ _ _ _ Hd) in H. rewrite Ho in H.
      destruct (F.update _ _ _ _ _) as [[f a]|e]; simpl in H; [|discriminate].
      inversion H; subst. exists f. repeat split. simpl. exact Ho.
    + rewrite (update_not_due _ _ _ _ _ _ Hd) in H. discriminate.
Qed.
End Calibration.

Section Completion.
Context {P : Platform}.

Lemma set_weights_ready (f : F.t)
    (gyro_weight pitch_weight roll_weight : option float) :
  ready f -> ready (fst (F.set_weights f gyro_weight pitch_weight roll_weight)).
Proof.
  unfold ready, F.set_weights, F.checked.
  destruct f as [rate pw rw p r last d]; simpl. intros [Hp Hr].
  destruct gyro_weight as [g|], pitch_weight as [pv|], roll_weight as [rv|];
    repeat match goal with
           | |- context [F.in_unit_interval ?w] =>
             destruct (F.in_unit_interval w)
           end; simpl; split; solve [assumption | discriminate].
Qed.

Lemma filter_init_ok (update_rate : Z) (gyro_weight : float) (now : Z) :
  update_rate <> 0 -> in_float_range update_rate ->
  exists f,
    F.__init__ update_rate gyro_weight now = Ok f /\
    (F.in_unit_interval gyro_weight = true -> ready f).
Proof.
  intros H Hr. unfold F.__init__, truediv.
  rewrite Hr. cbn [bind].
  rewrite (of_int_nonzero update_rate H). simpl.
  eexists. split; [reflexivity|].
  intros Hw. unfold ready, F.set_weights, F.checked. rewrite Hw. simpl.
  split; discriminate.
Qed.

Lemma processor_init_ok (update_rate t0 t1 : Z) :
  literals_ok -> update_rate <> 0 -> in_float_range update_rate ->
  exists p, Pr.__init__ update_rate t0 t1 = Ok p /\ ready (Pr.filter p).
Proof.
  intros [Hl _] H Hr. unfold Pr.__init__.
  destruct (filter_init_ok update_rate F.default_gyro_weight t0 H Hr)
    as (f & E & Hf).
  rewrite E. simpl. unfold floordiv.
  destruct (Z.eqb_spec update_rate 0) as [H0|_]; [contradiction|]. simpl.
  eexists. split; [reflexivity|]. simpl. auto.
Qed.

(** The exceptions of the two angle functions come from [**]. *)
Lemma accel_pitch_raise (accel : Vec.t) (e : exn) :
  square_documented ->
  F._get_accel_pitch accel = Raise e -> e = OverflowError.
Proof.
  intros H. unfold F._get_accel_pitch, F.pitch_denominator.
  destruct (square (Vec.y accel)) as [y2|ey] eqn:Hy; cbn [bind].
  - destruct (square (Vec.z accel)) as [z2|ez] eqn:Hz; cbn [bind].
    + rewrite (math_sqrt_sum_squares _ _ _ _ H Hy Hz). discriminate.
    + intros E. inversion E; subst. exact (square_raise _ _ H Hz).
  - intros E. inversion E; subst. exact (square_raise _ _ H Hy).
Qed.

Lemma accel_roll_raise (accel : Vec.t) (e : exn) :
  square_documented ->
  F._get_accel_roll accel = Raise e -> e = OverflowError.
Proof.
  intros H. unfold F._get_accel_roll, F.roll_denominator.
  destruct (square (Vec.x accel)) as [x2|ex] eqn:Hx; cbn [bind].
  - destruct (square (Vec.z accel)) as [z2|ez] eqn:Hz; cbn [bind].
    + rewrite (math_sqrt_sum_squares _ _ _ _ H Hx Hz). discriminate.
    + intros E. inversion E; subst. exact (square_raise _ _ H Hz).
  - intros E. inversion E; subst. exact (square_raise _ _ H Hx).
Qed.

(** [update] raises [OverflowError] or [AttributeError], nothing else. *)
Lemma filter_update_raise (f : F.t) (accel gyro : Vec.t) (dt : option float)
    (now : Z) (e : exn) :
  square_documented ->
  F.update f accel gyro dt now = Raise e ->
  e = OverflowError \/ e = AttributeError.
Proof.
  intros H. unfold F.update.
  destruct (F._get_accel_pitch accel) as [ap|e1] eqn:Hap; cbn [bind].
  - destruct (F._get_accel_roll accel) as [ar|e2] eqn:Har; cbn [bind].
    + destruct f as [rate [pw|] [rw|] p r last d]; cbn;
        intros E; inversion E; auto.
    + intros E. inversion E; subst. left. exact (accel_roll_raise _ _ H Har).
  - intros E. inversion E; subst. left. exact (accel_pitch_raise _ _ H Hap).
Qed.

(** C7, as the code has it.  No core operation raises, provided that the
    update rate given to a constructor is not 0 and is within the range of
    the floats, that the sample count given to [calibrate_gyro] is not 0
    and, when positive, within that range, that the squares of the
    accelerometer vector given to an update are within that range, and
    that the weights of the filter are set.  The weights are set on a
    filter built with a [gyro_weight] within [[0, 1]] and on the filter
    of every new processor, and every operation keeps them set.  What the
    filter's [update] raises otherwise is [OverflowError] or
    [AttributeError].  ([set_weights], [get_angles], [reset],
    [should_update], [get_orientation] and [set_filter_weights] are total
    functions of the model: they compare and assign only.) *)
Theorem core_operations_complete :
  (forall update_rate gyro_weight now,
      update_rate <> 0 ->
      in_float_range update_rate ->
      exists f, F.__init__ update_rate gyro_weight now = Ok f /\
                (F.in_unit_interval gyro_weight = true -> ready f))
  /\ (forall f accel gyro dt now,
      square_documented ->
      squares_return accel ->
      ready f ->
      exists f' angles,
        F.update f accel gyro dt now = Ok (f', angles) /\ ready f')
  /\ (forall f accel gyro dt now e,
      square_documented ->
      F.update f accel gyro dt now = Raise e ->
      e = OverflowError \/ e = AttributeError)
  /\ (forall f gyro_weight pitch_weight roll_weight,
      ready f ->
      ready (fst (F.set_weights f gyro_weight pitch_weight roll_weight)))
  /\ (forall f in_degrees, fst (F.get_angles f in_degrees) = f)
  /\ (forall f now, ready f -> ready (F.reset f now))
  /\ (literals_ok ->
      forall update_rate t0 t1,
      update_rate <> 0 ->
      in_float_range update_rate ->
      exists p, Pr.__init__ update_rate t0 t1 = Ok p /\ ready (Pr.filter p))
  /\ (forall p read_gyro_func samples,
      samples <> 0 ->
      (0 < samples -> in_float_range samples) ->
      exists p' offset,
        Pr.calibrate_gyro p read_gyro_func samples = Ok (p', offset) /\
        Pr.filter p' = Pr.filter p)
  /\ (forall p now, fst (Pr.should_update p now) = p)
  /\ (forall p accel gyro now_gate now now_filter,
      square_documented ->
      squares_return accel ->
      ready (Pr.filter p) ->
      exists p' outcome,
        Pr.update p accel gyro now_gate now now_filter = Ok (p', outcome) /\
        ready (Pr.filter p'))
  /\ (forall p in_degrees, fst (Pr.get_orientation p in_degrees) = p)
  /\ (forall p gyro_weight pitch_weight roll_weight,
      ready (Pr.filter p) ->
      ready (Pr.filter
               (fst (Pr.set_filter_weights p gyro_weight pitch_weight
                       roll_weight)))).
Proof.
  repeat match goal with |- _ /\ _ => split end.
  - intros. apply filter_init_ok; assumption.
  - intros f accel gyro dt now Hsq Hs Hf.
    destruct (filter_update_ok f accel gyro dt now Hsq Hs Hf)
      as (f' & a & E & Hp & Hr).
    exists f', a. split; [exact E|]. unfold ready. rewrite Hp, Hr. exact Hf.
  - intros f accel gyro dt now e. apply filter_update_raise.
  - intros. apply set_weights_ready. assumption.
  - intros f []; reflexivity.
  - intros f now Hf. exact Hf.
  - intros. apply processor_init_ok; assumption.
  - intros p read_gyro_func samples H Hr.
    destruct (Z.lt_ge_cases 0 samples) as [Hpos|Hneg].
    + eexists. eexists.
      split; [apply calibrate_gyro_ok; [lia | auto]|]. reflexivity.
    + eexists. eexists.
      split; [apply calibrate_gyro_below_zero; lia|]. reflexivity.
  - reflexivity.
  - intros p accel gyro now_gate now now_filter Hsq Hs Hf.
    destruct (Z.leb_spec (Pr.min_interval p)
                (ticks_diff now_gate (Pr.last_update p))) as [Hd|Hd].
    + destruct (update_accepts p accel gyro now_gate now now_filter
                  Hsq Hs Hf Hd)
        as (p' & a & E & _ & _ & Hr).
      exists p', (Some a). split; assumption.
    + exists p, None. split; [apply update_not_due; exact Hd|exact Hf].
  - intros p in_degrees. unfold Pr.get_orientation.
    destruct in_degrees; destruct p; reflexivity.
  - intros p gyro_weight pitch_weight roll_weight Hf.
    unfold Pr.set_filter_weights.
    pose proof (set_weights_ready (Pr.filter p) gyro_weight pitch_weight
                  roll_weight Hf) as H.
    destruct (F.set_weights _ _ _ _) as [f ok]. exact H.
Qed.
End Completion.

(** ** Squares, sums and roots of numbers keep a clear sign *)

Section Signed.
Variables (fprec femax : Z).

Lemma signed_not_nan (s : bool) (a : float) : signed s a -> is_nan a = false.
Proof. destruct a; simpl; intros H; auto; contradiction. Qed.

Lemma SFmul_self_signed (a : float) :
  is_nan a = false -> signed false (SFmul fprec femax a a).
Proof.
  destruct a as [s|s| |s m e]; simpl; intros H;
    try discriminate; try (destruct s; reflexivity).
  replace (xorb s s) with false by (destruct s; reflexivity).
  apply binary_round_aux_signed. lia.
Qed.

Lemma SFadd_signed (a b : float) :
  signed false a -> signed false b -> signed false (SFadd fprec femax a b).
Proof.
  destruct a as [sa|sa| |sa ma ea]; destruct b as [sb|sb| |sb mb eb];
    simpl; intros Ha Hb; subst; try contradiction; try reflexivity.
  apply binary_round_signed.
Qed.

Lemma SFsqrt_signed (a : float) :
  signed false a -> signed false (SFsqrt fprec femax a).
Proof.
  destruct a as [s|s| |s m e]; simpl; intros H; subst;
    try contradiction; try reflexivity.
  unfold SFsqrt_core_binary.
  set (m' := match _ - 2 * _ with Z0 => _ | Zpos _ => _ | Zneg _ => _ end).
  assert (Hm : 0 <= m').
  { subst m'. destruct (_ - 2 * _); try lia. apply Z.shiftl_nonneg. lia. }
  pose proof (Z.sqrtrem_spec m' Hm) as Hs.
  destruct (Z.sqrtrem m') as [q r].
  apply binary_round_aux_signed. lia.
Qed.

Lemma SFdiv_finite_not_nan (sy : bool) (my : positive) (ey : Z)
    (sx : bool) (mx : positive) (ex : Z) :
  is_nan (SFdiv fprec femax (S754_finite sy my ey) (S754_finite sx mx ex))
    = false.
Proof.
  simpl. unfold SFdiv_core_binary.
  set (m' := match _ - _ - _ with Z0 => _ | Zpos _ => _ | Zneg _ => _ end).
  assert (Hm : 0 <= m').
  { subst m'. destruct (_ - _ - _); try lia. apply Z.shiftl_nonneg. lia. }
  pose proof (Z.div_pos m' (Zpos mx) Hm eq_refl) as Hq.
  unfold Z.div in Hq.
  destruct (Z.div_eucl m' (Zpos mx)) as [q r]. simpl in Hq.
  apply (signed_not_nan (xorb sy sx)).
  apply binary_round_aux_signed. exact Hq.
Qed.

Lemma binary_normalize_not_nan (m e : Z) :
  is_nan (binary_normalize fprec femax m e false) = false.
Proof.
  destruct m as [|p|p]; simpl; try reflexivity.
  - apply (signed_not_nan false). apply binary_round_signed.
  - apply (signed_not_nan true). apply binary_round_signed.
Qed.
End Signed.

(** ** Comparisons against a float of clear sign *)
Section Saturate.
Variables (fprec femax : Z).

Lemma SFleb_refl (a : float) : is_nan a = false -> SFleb a a = true.
Proof.
  unfold SFleb.
  destruct a as [s|s| |s m e]; simpl; intros H; try discriminate;
    try (destruct s; reflexivity).
  destruct s; rewrite Z.compare_refl, Pos.compare_cont_refl; reflexivity.
Qed.

Lemma SFleb_opp_self (a : float) : signed false a -> SFleb (SFopp a) a = true.
Proof.
  unfold SFleb.
  destruct a as [s|s| |s m e]; simpl; intros H; subst;
    try contradiction; reflexivity.
Qed.

Lemma SFleb_signs (a b : float) :
  signed true a -> signed false b -> SFleb a b = true.
Proof.
  unfold SFleb.
  destruct a as [sa|sa| |sa ma ea]; destruct b as [sb|sb| |sb mb eb];
    simpl; intros Ha Hb; subst; try contradiction; reflexivity.
Qed.

(** [a <= b] for [b] of clear sign as soon as [b < |a|] fails. *)
Lemma SFleb_of_not_ltb_abs (a b : float) :
  is_nan a = false -> signed false b ->
  SFltb b (SFabs a) = false ->
  SFleb a b = true /\ SFleb (SFopp b) a = true.
Proof.
  unfold SFleb, SFltb.
  destruct a as [sa|sa| |sa ma ea]; destruct b as [sb|sb| |sb mb eb];
    simpl; intros Ha Hb H; subst; try contradiction; try discriminate;
    try (destruct sa; simpl; split; reflexivity).
  rewrite (Z.compare_antisym eb ea).
  destruct sa; simpl; destruct (eb ?= ea) eqn:E; simpl in *;
    try discriminate; try (split; reflexivity).
  - destruct (Pos.compare_cont Eq mb ma); simpl; try discriminate;
      split; reflexivity.
  - replace (Pos.compare_cont Eq ma mb)
      with (CompOpp (Pos.compare_cont Eq mb ma))
      by apply (Pos.compare_cont_antisym mb ma Eq).
    destruct (Pos.compare_cont Eq mb ma); simpl; try discriminate;
      split; reflexivity.
Qed.
End Saturate.

(** ** The reference [atan2] stays within [[-pi, pi]] *)

Section ReferenceLaw.
Variables (fprec femax : Z).

Local Abbreviation pi := (Reference.round_fixed fprec femax pi_fixed).

Lemma pi_signed : signed false pi.
Proof. apply binary_round_signed. Qed.

Lemma saturate_within (a : float) :
  is_nan a = false ->
  SFleb (SFopp pi) (Reference.saturate fprec femax a) = true /\
  SFleb (Reference.saturate fprec femax a) pi = true.
Proof.
  intros Ha. unfold Reference.saturate.
  pose proof pi_signed as Hpi.
  destruct (SFltb pi (SFabs a)) eqn:E.
  - unfold Reference.with_sign.
    assert (Hn : is_nan pi = false) by exact (signed_not_nan false pi Hpi).
    assert (Ho : is_nan (SFopp pi) = false) by (destruct pi; auto).
    destruct (Reference.sign_bit a); split;
      auto using SFleb_refl, SFleb_opp_self.
  - destruct (SFleb_of_not_ltb_abs a pi Ha Hpi E). split; assumption.
Qed.

Lemma is_nan_SFabs (a : float) : is_nan (SFabs a) = is_nan a.
Proof. destruct a; reflexivity. Qed.

Lemma is_nan_with_sign (s : bool) (a : float) :
  is_nan (Reference.with_sign s a) = is_nan a.
Proof. destruct s, a; reflexivity. Qed.

Lemma first_quadrant_defined (y x : float) :
  is_nan y = false -> is_nan x = false ->
  Reference.first_quadrant fprec femax y x <> Reference.Undefined.
Proof.
  unfold Reference.first_quadrant.
  destruct y as [sy|sy| |sy my ey]; destruct x as [sx|sx| |sx mx ex];
    cbn [is_nan]; intros Hy Hx; try discriminate.
  destruct (SFleb _ _); [|discriminate].
  destruct (_ <? _); discriminate.
Qed.

Lemma first_quadrant_small (y x : float) (a : Z) (q : float) :
  Reference.first_quadrant fprec femax y x = Reference.Small a q ->
  is_nan q = false.
Proof.
  unfold Reference.first_quadrant.
  destruct y as [sy|sy| |sy my ey]; destruct x as [sx|sx| |sx mx ex];
    try discriminate.
  destruct (SFleb _ _); [|discriminate].
  destruct (_ <? _); [|discriminate].
  intros H. injection H as _ Hq. subst q.
  pose proof (SFdiv_finite_not_nan fprec femax sy my ey sx mx ex) as Hn.
  rewrite is_nan_SFabs. exact Hn.
Qed.

(** The reference [atan2] meets the documented range. *)
Lemma fixed_atan2_within (y x : float) :
  is_nan y = false -> is_nan x = false ->
  SFleb (SFopp pi) (Reference.fixed_atan2 fprec femax y x) = true /\
  SFleb (Reference.fixed_atan2 fprec femax y x) pi = true.
Proof.
  intros Hy Hx. unfold Reference.fixed_atan2.
  pose proof (first_quadrant_defined y x Hy Hx) as Hd.
  destruct (Reference.first_quadrant fprec femax y x) as [|a|a q] eqn:Q.
  - contradiction.
  - apply saturate_within. rewrite is_nan_with_sign.
    apply binary_normalize_not_nan.
  - apply saturate_within. rewrite is_nan_with_sign.
    destruct (Reference.sign_bit x).
    + apply binary_normalize_not_nan.
    + exact (first_quadrant_small y x a q Q).
Qed.
End ReferenceLaw.

(** Both reference platforms meet the documented range of [math.atan2]. *)
Lemma binary64_atan2_documented : atan2_documented (P := Reference.binary64).
Proof. intros y x Hy Hx. exact (fixed_atan2_within 53 1024 y x Hy Hx). Qed.

Lemma binary32_atan2_documented : atan2_documented (P := Reference.binary32).
Proof. intros y x Hy Hx. exact (fixed_atan2_within 24 128 y x Hy Hx). Qed.

(** ** The angles of the accelerometer *)

Section AccelAngles.
Context {P : Platform}.
Hypothesis epsilon_positive : (zero < F.epsilon)%py = true.

Lemma epsilon_signed : signed false F.epsilon.
Proof.
  revert epsilon_positive. unfold SFltb, zero.
  destruct F.epsilon as [s|[]| |[] m e]; simpl; try discriminate; reflexivity.
Qed.

(** The guard never lets a zero of either sign through. *)
Lemma clamp_nonzero (d : float) : is_zero (F.clamp d) = false.
Proof.
  pose proof epsilon_signed as He. unfold F.clamp.
  destruct (SFabs d < F.epsilon)%py eqn:E.
  - destruct (zero <= d)%py; revert epsilon_positive; unfold SFltb, zero;
      destruct F.epsilon as [s|s| |s m e];
      simpl; try discriminate; reflexivity.
  - destruct d as [s|s| |s m e]; try reflexivity.
    simpl in E. unfold zero in epsilon_positive.
    rewrite epsilon_positive in E. discriminate.
Qed.

(** On a number of clear sign the guard yields a positive number. *)
Lemma clamp_positive (d : float) :
  signed false d -> (zero < F.clamp d)%py = true.
Proof.
  intros Hd. unfold F.clamp.
  destruct (SFabs d < F.epsilon)%py eqn:E.
  - replace (zero <= d)%py with true; [exact epsilon_positive|].
    destruct d as [s|s| |s m e]; simpl in Hd; subst;
      try contradiction; reflexivity.
  - destruct d as [s|s| |s m e]; simpl in Hd; subst;
      try contradiction; try reflexivity.
    simpl in E. unfold zero in epsilon_positive.
    rewrite epsilon_positive in E. discriminate.
Qed.

Lemma positive_not_nan (a : float) : (zero < a)%py = true -> is_nan a = false.
Proof. destruct a; simpl; intros H; first [reflexivity | discriminate]. Qed.

Lemma root_signed (a2 b2 : float) :
  signed false a2 -> signed false b2 ->
  signed false (fsqrt (a2 + b2)%py).
Proof.
  intros Ha Hb. apply SFsqrt_signed. apply SFadd_signed; assumption.
Qed.

Lemma root_nonneg (a2 b2 : float) :
  nonneg a2 = true -> nonneg b2 = true ->
  nonneg (fsqrt (a2 + b2)%py) = true.
Proof.
  intros Ha Hb. apply SFsqrt_nonneg. apply SFadd_nonneg; assumption.
Qed.

(** On a root the guard never takes its negative branch. *)
Lemma clamp_root (root : float) :
  nonneg root = true ->
  F.clamp root
  = if (SFabs root < F.epsilon)%py then F.epsilon else root.
Proof.
  intros H. unfold F.clamp.
  destruct (SFabs root < F.epsilon)%py eqn:E; [|reflexivity].
  destruct root as [[]|[]| |[] m e]; try discriminate; reflexivity.
Qed.
End AccelAngles.

Section AccelAnglesGuarded.
Context {P : Platform}.

Lemma nonneg_signed (a : float) :
  nonneg a = true -> is_nan a = false -> signed false a.
Proof.
  destruct a as [[]|[]| |[] m e]; simpl; intros H1 H2;
    try discriminate; reflexivity.
Qed.

(** For every accelerometer vector, a NaN or an infinity included,
    [math.sqrt] gets no negative argument: an angle function raises only
    where [**] does, and that is an [OverflowError].  Where the squares
    are returned, the denominator handed to [math.atan2] is the root, or
    [1e-10] in place of a root below [1e-10]; it is never a zero. *)
Theorem accel_angles_are_guarded (accel : Vec.t) :
  square_documented ->
  (zero < decimal 1 (10 ^ 10))%py = true ->
  let tiny := decimal 1 (10 ^ 10) in
  let guarded := fun root : float =>
    if (SFabs root < tiny)%py then tiny else root in
  (forall x2 y2 z2,
      square (Vec.x accel) = Ok x2 ->
      square (Vec.y accel) = Ok y2 ->
      square (Vec.z accel) = Ok z2 ->
      F._get_accel_pitch accel
        = Ok (atan2 (- Vec.x accel)%py (guarded (fsqrt (y2 + z2)%py))) /\
      is_zero (guarded (fsqrt (y2 + z2)%py)) = false /\
      F._get_accel_roll accel
        = Ok (atan2 (Vec.y accel) (guarded (fsqrt (x2 + z2)%py))) /\
      is_zero (guarded (fsqrt (x2 + z2)%py)) = false)
  /\ (forall e, F._get_accel_pitch accel = Raise e -> e = OverflowError)
  /\ (forall e, F._get_accel_roll accel = Raise e -> e = OverflowError).
Proof.
  intros H He. cbv zeta. split; [|split].
  - intros x2 y2 z2 Hx Hy Hz.
    pose proof (square_nonneg _ _ H Hx) as Nx.
    pose proof (square_nonneg _ _ H Hy) as Ny.
    pose proof (square_nonneg _ _ H Hz) as Nz.
    rewrite (_get_accel_pitch_eq accel y2 z2 H Hy Hz).
    rewrite (_get_accel_roll_eq accel x2 z2 H Hx Hz).
    pose proof (clamp_root _ (root_nonneg _ _ Ny Nz)) as Cp.
    pose proof (clamp_root _ (root_nonneg _ _ Nx Nz)) as Cr.
    unfold F.epsilon in Cp, Cr.
    rewrite <- Cp, <- Cr.
    repeat split; apply (clamp_nonzero He).
  - intros e. apply accel_pitch_raise. exact H.
  - intros e. apply accel_roll_raise. exact H.
Qed.

(** When no component of the accelerometer vector is a NaN and the
    squares are within the range of the floats, both denominators are
    positive, and with a [math.atan2] that meets its documented range both
    angles lie between [-math.pi] and [math.pi]. *)
Theorem accel_angles_within_pi (accel : Vec.t) :
  square_documented ->
  (zero < decimal 1 (10 ^ 10))%py = true ->
  atan2_documented ->
  no_nan accel ->
  squares_return accel ->
  exists pitch_d roll_d accel_pitch accel_roll,
    F.pitch_denominator accel = Ok pitch_d /\
    F.roll_denominator accel = Ok roll_d /\
    (zero < pitch_d)%py = true /\
    (zero < roll_d)%py = true /\
    F._get_accel_pitch accel = Ok accel_pitch /\
    F._get_accel_roll accel = Ok accel_roll /\
    (- math_pi <= accel_pitch)%py = true /\
    (accel_pitch <= math_pi)%py = true /\
    (- math_pi <= accel_roll)%py = true /\
    (accel_roll <= math_pi)%py = true.
Proof.
  intros H He Hatan (Hx & Hy & Hz) (x2 & y2 & z2 & Sx & Sy & Sz).
  assert (Gx : signed false x2).
  { pose proof (H (Vec.x accel)) as Hd. rewrite Sx in Hd.
    apply nonneg_signed; [apply Hd | apply Hd; exact Hx]. }
  assert (Gy : signed false y2).
  { pose proof (H (Vec.y accel)) as Hd. rewrite Sy in Hd.
    apply nonneg_signed; [apply Hd | apply Hd; exact Hy]. }
  assert (Gz : signed false z2).
  { pose proof (H (Vec.z accel)) as Hd. rewrite Sz in Hd.
    apply nonneg_signed; [apply Hd | apply Hd; exact Hz]. }
  pose proof (clamp_positive He _ (root_signed _ _ Gy Gz)) as Hp.
  pose proof (clamp_positive He _ (root_signed _ _ Gx Gz)) as Hr.
  assert (Hnx : is_nan (- Vec.x accel)%py = false)
    by (destruct (Vec.x accel); auto).
  destruct (Hatan _ _ Hnx (positive_not_nan _ Hp)) as [P1 P2].
  destruct (Hatan _ _ Hy (positive_not_nan _ Hr)) as [R1 R2].
  do 4 eexists.
  rewrite (_get_accel_pitch_eq accel y2 z2 H Sy Sz).
  rewrite (_get_accel_roll_eq accel x2 z2 H Sx Sz).
  unfold F.pitch_denominator, F.roll_denominator.
  rewrite Sx, Sy, Sz. cbn [bind].
  rewrite (math_sqrt_sum_squares _ _ _ _ H Sy Sz).
  rewrite (math_sqrt_sum_squares _ _ _ _ H Sx Sz).
  cbn [bind].
  repeat split; assumption.
Qed.
End AccelAnglesGuarded.

(** ** The gate of the processor over time *)

Section Gate.
Context {P : Platform}.

(** From half a period on, a forward step is measured as a step back. *)
Lemma ticks_diff_backward (t d : Z) :
  0 < ticks_bits -> 2 ^ (ticks_bits - 1) <= d < 2 ^ ticks_bits ->
  ticks_diff (tick (t + d)) (tick t) = d - 2 ^ ticks_bits.
Proof.
  intros Hb Hd. unfold ticks_diff, tick.
  fold ticks_period in Hd |- *. rewrite (ticks_period_even Hb) in *.
  set (h := 2 ^ (ticks_bits - 1)) in *.
  replace (2 * h / 2) with h by (rewrite Z.mul_comm, Z.div_mul; lia).
  rewrite <- Z.add_mod_idemp_l by lia.
  rewrite <- Zminus_mod.
  rewrite Z.add_mod_idemp_l by lia.
  replace (t + d - t + h) with (d + h) by lia.
  rewrite <- (Z.mod_unique (d + h) (2 * h) 1 (d - h)) by lia.
  lia.
Qed.

Lemma ticks_diff_same (t : Z) : 0 < ticks_bits -> ticks_diff t t = 0.
Proof.
  intros Hb. unfold ticks_diff. rewrite (ticks_period_even Hb).
  assert (0 < 2 ^ (ticks_bits - 1)) by (apply Z.pow_pos_nonneg; lia).
  set (h := 2 ^ (ticks_bits - 1)) in *.
  replace (2 * h / 2) with h by (rewrite Z.mul_comm, Z.div_mul; lia).
  replace (t - t + h) with h by lia.
  rewrite Z.mod_small; lia.
Qed.

(** Counted from the tick of the last accepted update, the gate opens
    after exactly [min_interval] milliseconds, also when the tick counter
    wraps in between; but once half a period of the counter has gone by
    without an accepted update, the interval is measured as negative and a
    processor whose [min_interval] is not negative rejects every call
    until the full period is over. *)
Theorem gate_over_time (self : Pr.t) (t d : Z) :
  0 < ticks_bits ->
  Pr.last_update self = tick t ->
  (0 <= d < 2 ^ (ticks_bits - 1) ->
   Pr.should_update self (tick (t + d))
     = (self, Pr.min_interval self <=? d))
  /\ (2 ^ (ticks_bits - 1) <= d < 2 ^ ticks_bits ->
      0 <= Pr.min_interval self ->
      forall accel gyro now now_filter,
      Pr.update self accel gyro (tick (t + d)) now now_filter
        = Ok (self, None)).
Proof.
  intros Hb Hl. split.
  - intros Hd. unfold Pr.should_update.
    rewrite Hl, ticks_diff_forward by assumption. reflexivity.
  - intros Hd Hi accel gyro now now_filter.
    apply update_not_due.
    rewrite Hl, ticks_diff_backward by assumption. lia.
Qed.

(** A run of calls that all come before [min_interval] has elapsed since
    the last accepted update returns [None] every time and leaves the
    processor as it was: the calls keep being measured against the same
    [last_update]. *)
Theorem burst_is_skipped (self : Pr.t) (calls : list call) :
  Forall (fun c => ticks_diff (call_gate c) (Pr.last_update self)
                   < Pr.min_interval self) calls ->
  update_all self calls = Ok (self, map (fun _ => None) calls).
Proof.
  induction 1 as [|c rest Hc _ IH]; [reflexivity|].
  cbn [update_all map].
  rewrite (update_not_due _ _ _ _ _ _ Hc). cbn [bind].
  rewrite IH. reflexivity.
Qed.

Lemma processor_init_fields (update_rate t0 t1 : Z) (p : Pr.t) :
  Pr.__init__ update_rate t0 t1 = Ok p ->
  update_rate <> 0 /\
  Pr.min_interval p = 1000 / update_rate /\
  Pr.last_update p = t1 /\
  Pr.gyro_offset p = Vec.Build zero zero zero /\
  Pr.accel_offset p = Vec.Build zero zero zero /\
  Pr.update_rate p = update_rate.
Proof.
  unfold Pr.__init__, floordiv.
  destruct (F.__init__ update_rate F.default_gyro_weight t0) as [f|e];
    simpl; [|discriminate].
  destruct (Z.eqb_spec update_rate 0) as [H0|H0]; simpl; [discriminate|].
  intros H. inversion H. simpl. repeat split. exact H0.
Qed.

(** [min_interval] is [1000 // update_rate].  Up to 1000 Hz it is at least
    1 ms; above 1000 Hz it is 0, and then the gate is open whenever the
    measured interval is not negative: the processor accepts a second
    update within the same millisecond. *)
Theorem min_interval_of_rate (update_rate t0 t1 : Z) (p : Pr.t) :
  0 < ticks_bits ->
  Pr.__init__ update_rate t0 t1 = Ok p ->
  Pr.min_interval p = 1000 / update_rate
  /\ (1 <= update_rate <= 1000 -> 1 <= Pr.min_interval p <= 1000)
  /\ (1000 < update_rate ->
      Pr.min_interval p = 0 /\
      (forall now, 0 <= ticks_diff now (Pr.last_update p) ->
                   snd (Pr.should_update p now) = true) /\
      snd (Pr.should_update p (Pr.last_update p)) = true).
Proof.
  intros Hb H.
  destruct (processor_init_fields _ _ _ _ H) as (_ & Hm & _).
  split; [exact Hm|]. split.
  - intros Hr. rewrite Hm. split.
    + apply Z.div_le_lower_bound; lia.
    + apply Z.div_le_upper_bound; nia.
  - intros Hr.
    assert (H0 : Pr.min_interval p = 0)
      by (rewrite Hm; apply Z.div_small; lia).
    split; [exact H0|]. unfold Pr.should_update. simpl. rewrite H0. split.
    + intros now Hn. apply Z.leb_le. exact Hn.
    + rewrite ticks_diff_same by assumption. reflexivity.
Qed.
End Gate.

(** ** What the processor hands to the filter *)

Section Handover.
Context {P : Platform}.

Lemma fsub_zero (a : float) : (a - zero)%py = a.
Proof. destruct a as [[]|[]| |s m e]; reflexivity. Qed.

Lemma of_int_signed (n : Z) : 0 <= n -> signed false (of_int n).
Proof.
  intros H. unfold of_int, binary_normalize.
  destruct n as [|m|m]; [reflexivity|apply binary_round_signed|lia].
Qed.

Lemma of_int_negative (n : Z) : n < 0 -> signed true (of_int n).
Proof.
  intros H. unfold of_int, binary_normalize.
  destruct n as [|m|m]; [lia|lia|apply binary_round_signed].
Qed.

Lemma fdiv_signed_finite (a : float) (m : positive) (e : Z) :
  signed false a -> signed false (a / S754_finite false m e)%py.
Proof.
  unfold fdiv.
  destruct a as [s|s| |s ma ea]; simpl; intros H; subst;
    try contradiction; try reflexivity.
  unfold SFdiv_core_binary.
  set (m' := match _ - _ - _ with Z0 => _ | Zpos _ => _ | Zneg _ => _ end).
  assert (Hm : 0 <= m').
  { subst m'. destruct (_ - _ - _); try lia. apply Z.shiftl_nonneg. lia. }
  pose proof (Z.div_pos m' (Zpos m) Hm eq_refl) as Hq.
  unfold Z.div in Hq.
  destruct (Z.div_eucl m' (Zpos m)) as [q r]. simpl in Hq.
  apply binary_round_aux_signed. exact Hq.
Qed.

Lemma filter_update_stores_step (f f' : F.t) (accel gyro : Vec.t)
    (dt : option float) (now : Z) (angles : Angles.t) :
  F.update f accel gyro dt now = Ok (f', angles) ->
  F.dt f' = F.time_step f dt now /\ F.last_update f' = now.
Proof.
  unfold F.update.
  destruct (F._get_accel_pitch accel); cbn [bind]; [|discriminate].
  destruct (F._get_accel_roll accel); cbn [bind]; [|discriminate].
  destruct f as [rate [pw|] [rw|] p r last d]; cbn; try discriminate.
  intros H. inversion H. split; reflexivity.
Qed.

(** The time step of an accepted update is the interval the processor
    measured itself, and it is neither negative nor a NaN as long as the
    tick count the processor reads is not behind [last_update]: through
    the processor the filter never runs backwards in time. *)
Theorem accepted_step_not_negative
    (self self' : Pr.t) (accel gyro : Vec.t) (now_gate now now_filter : Z)
    (angles : Angles.t) :
  thousand_finite ->
  Pr.update self accel gyro now_gate now now_filter = Ok (self', Some angles) ->
  0 <= ticks_diff now (Pr.last_update self) ->
  F.dt (Pr.filter self') = seconds_between now (Pr.last_update self) /\
  signed false (F.dt (Pr.filter self')) /\
  (F.dt (Pr.filter self') < zero)%py = false.
Proof.
  intros (m & e & Ht) H Hn.
  destruct (Z.leb_spec (Pr.min_interval self)
              (ticks_diff now_gate (Pr.last_update self))) as [Hd|Hd].
  - rewrite (update_due _ _ _ _ _ _ Hd) in H.
    destruct (F.update _ _ _ _ _) as [[f a]|err] eqn:E; simpl in H;
      [|discriminate].
    inversion H; subst. simpl.
    destruct (filter_update_stores_step _ _ _ _ _ _ _ E) as [Hs _].
    rewrite Hs. simpl.
    assert (Hsg : signed false (seconds_between now (Pr.last_update self))).
    { unfold seconds_between. rewrite Ht.
      apply fdiv_signed_finite. apply of_int_signed. exact Hn. }
    split; [reflexivity|]. split; [exact Hsg|].
    apply SFltb_nonneg_zero. apply signed_nonneg. exact Hsg.
  - rewrite (update_not_due _ _ _ _ _ _ Hd) in H. discriminate.
Qed.

(** Until [calibrate_gyro] has run, the offset is zero and an accepted
    update hands the filter the gyroscope reading exactly as it came:
    subtracting the zero offset changes no float, not even the sign of a
    zero.  [utils.apply_calibration] computes the same correction. *)
Theorem uncalibrated_passes_raw_gyro
    (update_rate t0 t1 : Z) (p : Pr.t) (accel gyro : Vec.t)
    (now_gate now now_filter : Z) :
  Pr.__init__ update_rate t0 t1 = Ok p ->
  Pr.min_interval p <= ticks_diff now_gate (Pr.last_update p) ->
  Utils.apply_calibration gyro (Pr.gyro_offset p) = gyro /\
  Pr.update p accel gyro now_gate now now_filter =
  ' (f, angles) <-
      F.update (Pr.filter p) accel gyro
        (Some (seconds_between now (Pr.last_update p))) now_filter ;;
  Ok (Pr.with_filter f (Pr.with_last_update now p), Some angles).
Proof.
  intros H Hd.
  destruct (processor_init_fields _ _ _ _ H) as (_ & _ & _ & Ho & _).
  assert (Hg : Utils.apply_calibration gyro (Pr.gyro_offset p) = gyro).
  { rewrite Ho. unfold Utils.apply_calibration. simpl.
    rewrite !fsub_zero. destruct gyro; reflexivity. }
  split; [exact Hg|].
  rewrite (update_due _ _ _ _ _ _ Hd).
  unfold Utils.apply_calibration in Hg. rewrite Hg. reflexivity.
Qed.

(** The processor's correction of the gyroscope reading is
    [utils.apply_calibration], whatever the offset. *)
Lemma update_applies_calibration (self : Pr.t) (accel gyro : Vec.t)
    (now_gate now now_filter : Z) :
  Pr.min_interval self <= ticks_diff now_gate (Pr.last_update self) ->
  Pr.update self accel gyro now_gate now now_filter =
  ' (f, angles) <-
      F.update (Pr.filter self) accel
        (Utils.apply_calibration gyro (Pr.gyro_offset self))
        (Some (seconds_between now (Pr.last_update self))) now_filter ;;
  Ok (Pr.with_filter f (Pr.with_last_update now self), Some angles).
Proof. exact (update_due self accel gyro now_gate now now_filter). Qed.

(** A division by zero is raised exactly by an update rate of 0 in either
    constructor and by a sample count of 0 in [calibrate_gyro]. *)
Theorem zero_division_exactly_at_zero :
  (forall update_rate gyro_weight now,
      F.__init__ update_rate gyro_weight now = Raise ZeroDivisionError
      <-> update_rate = 0)
  /\ (forall update_rate t0 t1,
      Pr.__init__ update_rate t0 t1 = Raise ZeroDivisionError
      <-> update_rate = 0)
  /\ (forall p read_gyro_func samples,
      Pr.calibrate_gyro p read_gyro_func samples = Raise ZeroDivisionError
      <-> samples = 0).
Proof.
  assert (HF : forall update_rate gyro_weight now,
             F.__init__ update_rate gyro_weight now = Raise ZeroDivisionError
             <-> update_rate = 0).
  { intros update_rate gyro_weight now. split.
    - intros H. destruct (Z.eq_dec update_rate 0) as [|Hn]; [assumption|].
      unfold F.__init__ in H.
      destruct (to_float update_rate) as [rate|e] eqn:Hrate; cbn [bind] in H.
      + unfold truediv in H.
        rewrite (to_float_nonzero _ _ Hn Hrate) in H. discriminate.
      + apply to_float_raise in Hrate. subst e. discriminate.
    - intros ->. reflexivity. }
  split; [exact HF|]. split.
  - intros update_rate t0 t1. split.
    + intros H. destruct (Z.eq_dec update_rate 0) as [|Hn]; [assumption|].
      unfold Pr.__init__ in H.
      destruct (F.__init__ update_rate F.default_gyro_weight t0)
        as [f|e] eqn:E; cbn [bind] in H.
      * unfold floordiv in H.
        destruct (Z.eqb_spec update_rate 0); [contradiction|discriminate].
      * inversion H; subst. apply HF in E. contradiction.
    + intros ->. reflexivity.
  - intros p read_gyro_func samples. split.
    + intros H. destruct (Z.eq_dec samples 0) as [|Hn]; [assumption|].
      destruct (Z.lt_ge_cases 0 samples) as [Hpos|Hneg].
      * destruct (to_float samples) as [count|e] eqn:Hc.
        -- pose proof (to_float_ok _ _ Hc) as Hf. subst count.
           rewrite (calibrate_gyro_ok p read_gyro_func samples) in H;
             [discriminate | lia | exact Hc].
        -- apply to_float_raise in Hc as He. subst e.
           unfold Pr.calibrate_gyro, Pr.mean in H.
           replace (0 <? samples) with true in H
             by (symmetry; apply Z.ltb_lt; lia).
           rewrite Hc in H. discriminate.
      * rewrite (calibrate_gyro_below_zero p read_gyro_func samples) in H
          by lia.
        discriminate.
    + intros ->. reflexivity.
Qed.

Lemma to_float_cases (n : Z) :
  in_float_range n \/ to_float n = Raise OverflowError.
Proof.
  unfold in_float_range, to_float. destruct (of_int n); auto.
Qed.

Lemma to_float_overflow (n : Z) :
  to_float n = Raise OverflowError <-> ~ in_float_range n.
Proof.
  unfold in_float_range. split.
  - intros H E. rewrite H in E. discriminate.
  - intros H. destruct (to_float_cases n) as [E|E]; [contradiction|exact E].
Qed.

(** An [OverflowError] is raised by the constructors exactly for an update
    rate beyond the range of the floats, and by [calibrate_gyro] exactly
    for a positive sample count beyond it.  An integer of magnitude below
    [2^(emax - 1)] is within the range. *)
Theorem overflow_exactly_beyond_range :
  (forall update_rate gyro_weight now,
      F.__init__ update_rate gyro_weight now = Raise OverflowError
      <-> ~ in_float_range update_rate)
  /\ (forall update_rate t0 t1,
      Pr.__init__ update_rate t0 t1 = Raise OverflowError
      <-> ~ in_float_range update_rate)
  /\ (forall p read_gyro_func samples,
      Pr.calibrate_gyro p read_gyro_func samples = Raise OverflowError
      <-> 0 < samples /\ ~ in_float_range samples)
  /\ (forall n, Z.abs n < 2 ^ (emax - 1) -> in_float_range n).
Proof.
  assert (HF : forall update_rate gyro_weight now,
             F.__init__ update_rate gyro_weight now = Raise OverflowError
             <-> ~ in_float_range update_rate).
  { intros update_rate gyro_weight now.
    rewrite <- to_float_overflow. unfold F.__init__.
    destruct (to_float update_rate) as [rate|e] eqn:Hrate; cbn [bind].
    - unfold truediv. destruct (is_zero rate); cbn [bind];
        split; discriminate.
    - apply to_float_raise in Hrate as ->. split; reflexivity. }
  split; [exact HF|]. split; [|split].
  - intros update_rate t0 t1. rewrite <- (HF update_rate
                                            F.default_gyro_weight t0).
    unfold Pr.__init__.
    destruct (F.__init__ update_rate F.default_gyro_weight t0)
      as [f|e]; cbn [bind].
    + unfold floordiv. destruct (update_rate =? 0); cbn [bind];
        split; discriminate.
    + split; intros E; inversion E; reflexivity.
  - intros p read_gyro_func samples. split.
    + intros H. destruct (Z.lt_ge_cases 0 samples) as [Hpos|Hneg].
      * split; [exact Hpos|]. intros Hr.
        rewrite (calibrate_gyro_ok p read_gyro_func samples) in H;
          [discriminate | lia | exact Hr].
      * destruct (Z.eq_dec samples 0) as [->|Hn]; [discriminate|].
        rewrite (calibrate_gyro_below_zero p read_gyro_func samples) in H
          by lia.
        discriminate.
    + intros [Hpos Hr]. apply to_float_overflow in Hr.
      unfold Pr.calibrate_gyro, Pr.mean.
      replace (0 <? samples) with true by (symmetry; apply Z.ltb_lt; lia).
      rewrite Hr. reflexivity.
  - exact to_float_in_range.
Qed.

(** A negative sample count runs the loop of [calibrate_gyro] zero times:
    the sample source is never called, the division yields the negative
    zero on every axis, and that replaces the offset held before. *)
Theorem calibrate_gyro_negative_count
    (self : Pr.t) (read_gyro_func : nat -> Vec.t) (samples : Z) :
  samples < 0 ->
  let minus_zero := Vec.Build (S754_zero true) (S754_zero true)
                              (S754_zero true) in
  Pr.calibrate_gyro self read_gyro_func samples
    = Ok (Pr.with_gyro_offset minus_zero self, minus_zero).
Proof. intros H. apply calibrate_gyro_below_zero. exact H. Qed.

(** A filter whose weights are not both set raises [AttributeError] in
    [update], once the accelerometer angles are there. *)
Lemma filter_update_unready (f : F.t) (accel gyro : Vec.t)
    (dt : option float) (now : Z) :
  square_documented -> squares_return accel ->
  ~ ready f ->
  F.update f accel gyro dt now = Raise AttributeError.
Proof.
  intros H Hs Hn.
  destruct (accel_angles_return accel H Hs) as (ap & ar & Hap & Har).
  unfold F.update. rewrite Hap, Har. cbn [bind].
  destruct f as [rate [pw|] [rw|] p r last d]; cbn; try reflexivity.
  exfalso. apply Hn. split; discriminate.
Qed.

(** A filter built with a [gyro_weight] outside [[0, 1]] is built all the
    same, but without weights, and no [update] on it returns: on a vector
    whose squares are within range it raises [AttributeError].  That stays
    so after [set_weights] has accepted a weight for one axis only,
    although the call returns [True]; once a weight is accepted for both
    axes, [update] returns.  In general [update] returns exactly on the
    filters whose two weights are set. *)
Theorem rejected_initial_weight_leaves_none
    (update_rate : Z) (gyro_weight : float) (now : Z) :
  square_documented ->
  update_rate <> 0 ->
  in_float_range update_rate ->
  F.in_unit_interval gyro_weight = false ->
  exists f,
    F.__init__ update_rate gyro_weight now = Ok f /\
    F.pitch_weight f = None /\
    F.roll_weight f = None /\
    (forall accel gyro dt now' f' angles,
        F.update f accel gyro dt now' <> Ok (f', angles)) /\
    (forall accel gyro dt now',
        squares_return accel ->
        F.update f accel gyro dt now' = Raise AttributeError) /\
    (forall w accel gyro dt now',
        F.in_unit_interval w = true ->
        squares_return accel ->
        F.set_weights f None (Some w) None = (F.with_pitch_weight w f, true) /\
        F.update (F.with_pitch_weight w f) accel gyro dt now'
          = Raise AttributeError /\
        F.set_weights f None None (Some w) = (F.with_roll_weight w f, true) /\
        F.update (F.with_roll_weight w f) accel gyro dt now'
          = Raise AttributeError /\
        F.set_weights f (Some w) None None = (both_weights w f, true) /\
        exists f' angles,
          F.update (both_weights w f) accel gyro dt now' = Ok (f', angles)) /\
    (forall (g : F.t) accel gyro dt now',
        squares_return accel ->
        (exists g' angles, F.update g accel gyro dt now' = Ok (g', angles))
        <-> ready g).
Proof.
  intros Hsq Hr Hrange Hw. unfold F.__init__, truediv.
  rewrite Hrange. cbn [bind].
  rewrite (of_int_nonzero update_rate Hr).
  unfold F.set_weights at 1, F.checked. rewrite Hw. cbn.
  eexists. split; [reflexivity|]. cbn.
  split; [reflexivity|]. split; [reflexivity|].
  split; [|split; [|split]].
  - intros accel gyro dt now' f' angles E.
    apply filter_update_weights in E as ([Hp _] & _). apply Hp. reflexivity.
  - intros accel gyro dt now' Hs.
    apply filter_update_unready; try assumption.
    intros [Hp _]. apply Hp. reflexivity.
  - intros w accel gyro dt now' Hv Hs.
    unfold F.set_weights, F.checked. rewrite Hv. cbn.
    split; [reflexivity|]. split.
    { apply filter_update_unready; try assumption.
      intros [_ Hp]. apply Hp. reflexivity. }
    split; [reflexivity|]. split.
    { apply filter_update_unready; try assumption.
      intros [Hp _]. apply Hp. reflexivity. }
    split; [reflexivity|].
    destruct (filter_update_ok
                (both_weights w
                   (F.Build update_rate None None zero zero now
                      (one / of_int update_rate)%py))
                accel gyro dt now' Hsq Hs) as (f' & a & E & _).
    + split; discriminate.
    + exists f', a. exact E.
  - intros g accel gyro dt now' Hs. split.
    + intros (g' & a & E). apply filter_update_weights in E. apply E.
    + intros Hg.
      destruct (filter_update_ok g accel gyro dt now' Hsq Hs Hg)
        as (g' & a & E & _).
      exists g', a. exact E.
Qed.
End Handover.

(** ** The data logger *)

Module L := SimpleDataLogger.

Section Logger.
Context {P : Platform}.

Lemma pop0_snoc {A : Type} (l : list A) (x : A) :
  L.pop0 (l ++ [x]) = Some (tl (l ++ [x])).
Proof. destruct l; reflexivity. Qed.

(** [add_data_point] never raises: each buffer it pops has just been
    appended to.  On a logger whose seven buffers hold [n] entries each it
    leaves them holding the same number of entries again: [n + 1], or [n]
    when that would exceed [buffer_size]; [buffer_size] and [start_time]
    stay. *)
Theorem add_data_point_keeps_aligned
    (self : L.t) (n : nat) (angles : Angles.t)
    (accel_angles gyro_angles : option Angles.t) (now : Z) :
  aligned self n ->
  exists self',
    L.add_data_point self angles accel_angles gyro_angles now = Some self' /\
    aligned self' (if L.buffer_size self <? Z.of_nat (S n) then n else S n) /\
    L.buffer_size self' = L.buffer_size self /\
    L.start_time self' = L.start_time self.
Proof.
  unfold aligned. intros (Ht & Hp & Hr & Hap & Har & Hgp & Hgr).
  unfold L.add_data_point. rewrite !pop0_snoc.
  rewrite length_app, Ht. cbn [length]. rewrite Nat.add_1_r.
  assert (Htl : forall (A : Type) (l : list A) (x : A),
             length l = n -> length (tl (l ++ [x])) = n).
  { intros A l x Hl. destruct l; simpl in *; [exact Hl|].
    rewrite length_app. simpl. lia. }
  assert (Happ : forall (A : Type) (l : list A) (x : A),
             length l = n -> length (l ++ [x]) = S n).
  { intros A l x Hl. rewrite length_app, Hl. simpl. lia. }
  destruct (L.buffer_size self <? Z.of_nat (S n)); eexists;
    (split; [reflexivity|]); simpl; repeat split; auto.
Qed.

Lemma tl_skipn {A : Type} (n : nat) (l : list A) :
  tl (skipn n l) = skipn (S n) l.
Proof.
  revert l. induction n as [|n IH]; intros [|a l]; try reflexivity.
  cbn [skipn]. apply IH.
Qed.

Lemma length_lastn {A : Type} (k : nat) (l : list A) :
  length (lastn k l) = Nat.min k (length l).
Proof. unfold lastn. rewrite length_skipn. lia. Qed.

(** Appending to the last [k] elements and dropping the oldest when there
    are more than [k] gives the last [k] elements of the longer list. *)
Lemma lastn_snoc {A : Type} (k : nat) (l : list A) (x : A) :
  lastn k (l ++ [x]) =
  if (k <? length (lastn k l ++ [x]))%nat
  then tl (lastn k l ++ [x]) else lastn k l ++ [x].
Proof.
  rewrite length_app, length_lastn. cbn [length].
  unfold lastn. rewrite length_app. cbn [length].
  destruct (Nat.ltb_spec k (Nat.min k (length l) + 1)) as [H|H].
  - assert (Hk : (k <= length l)%nat) by lia.
    destruct k as [|k].
    + replace (length l + 1 - 0)%nat with (S (length l)) by lia.
      replace (length l - 0)%nat with (length l) by lia.
      rewrite skipn_all.
      rewrite skipn_all2 by (rewrite length_app; simpl; lia).
      reflexivity.
    + replace (length l + 1 - S k)%nat with (S (length l - S k)) by lia.
      rewrite <- tl_skipn.
      rewrite skipn_app.
      replace (length l - S k - length l)%nat with O by lia.
      reflexivity.
  - replace (length l + 1 - k)%nat with O by lia.
    replace (length l - k)%nat with O by lia.
    reflexivity.
Qed.

Lemma tl_map {A B : Type} (f : A -> B) (l : list A) :
  tl (map f l) = map f (tl l).
Proof. destruct l; reflexivity. Qed.

Lemma add_data_point_holds (k now0 : Z) (done : list point) (p : point)
    (self : L.t) :
  holds k now0 done self ->
  exists self',
    L.add_data_point self (point_angles p) (point_accel p) (point_gyro p)
      (point_now p) = Some self' /\
    holds k now0 (done ++ [p]) self'.
Proof.
  unfold holds. cbv zeta.
  intros (Hk & Hs & Ht & Hp & Hr & Hap & Har & Hgp & Hgr).
  unfold L.add_data_point. rewrite !pop0_snoc.
  rewrite Hk, Hs, Ht, Hp, Hr, Hap, Har, Hgp, Hgr.
  rewrite (lastn_snoc (Z.to_nat k) done p).
  rewrite length_app, length_map. cbn [length].
  rewrite length_app. cbn [length].
  set (kept := lastn (Z.to_nat k) done).
  assert (Hc : (k <? Z.of_nat (length kept + 1))
               = (Z.to_nat k <? length kept + 1)%nat).
  { destruct (Z.ltb_spec k (Z.of_nat (length kept + 1)));
      destruct (Nat.ltb_spec (Z.to_nat k) (length kept + 1)); lia. }
  rewrite Hc.
  destruct (Z.to_nat k <? length kept + 1)%nat; eexists;
    (split; [reflexivity|]); cbn [L.buffer_size L.start_time L.time_buffer
      L.pitch_buffer L.roll_buffer L.accel_pitch_buffer L.accel_roll_buffer
      L.gyro_pitch_buffer L.gyro_roll_buffer];
    rewrite <- ?tl_map, ?map_app; cbn [map]; repeat split.
Qed.

Lemma add_all_holds (k now0 : Z) (points done : list point) (self : L.t) :
  holds k now0 done self ->
  exists self', add_all self points = Some self' /\
                holds k now0 (done ++ points) self'.
Proof.
  revert done self. induction points as [|p points IH]; intros done self H.
  - exists self. rewrite app_nil_r. split; [reflexivity|exact H].
  - destruct (add_data_point_holds k now0 done p self H) as (s1 & E & H1).
    cbn [add_all]. rewrite E.
    destruct (IH (done ++ [p]) s1 H1) as (s2 & E2 & H2).
    exists s2. rewrite <- app_assoc in H2. split; assumption.
Qed.

(** A new logger fed any run of points never raises and ends up holding
    exactly the latest [buffer_size] of them, oldest first, at the same
    positions in all seven buffers: the time of each point in seconds
    since [start_time], its pitch and roll, and the accelerometer and
    gyroscope angles or [None] where they were not supplied.  With a
    [buffer_size] of 0 or less it holds nothing. *)
Theorem logger_keeps_latest (buffer_size now0 : Z) (points : list point) :
  exists self,
    add_all (L.__init__ buffer_size now0) points = Some self /\
    holds buffer_size now0 points self /\
    aligned self (Nat.min (Z.to_nat buffer_size) (length points)).
Proof.
  destruct (add_all_holds buffer_size now0 points []
              (L.__init__ buffer_size now0)) as (self & E & H).
  { unfold holds, lastn. simpl. repeat split. }
  exists self. split; [exact E|]. split; [exact H|].
  simpl in H. unfold holds in H. cbv zeta in H.
  destruct H as (_ & _ & Ht & Hp & Hr & Hap & Har & Hgp & Hgr).
  unfold aligned.
  rewrite Ht, Hp, Hr, Hap, Har, Hgp, Hgr, !length_map, length_lastn.
  repeat split.
Qed.
End Logger.

(** ** Decoding the sensor registers *)

Section Registers.
Context {P : Platform}.

(** For two bytes, [(high << 8) | low] is [256 * high + low]. *)
Lemma join_bytes (high low : Z) :
  0 <= high -> 0 <= low < 256 ->
  Z.lor (Z.shiftl high 8) low = 256 * high + low.
Proof.
  intros Hh Hl.
  rewrite Z.shiftl_mul_pow2 by lia. change (2 ^ 8) with 256.
  assert (Hd : Z.land (high * 256) low = 0).
  { apply Z.bits_inj'. intros n Hn.
    rewrite Z.land_spec, Z.bits_0.
    destruct (Z.lt_ge_cases n 8) as [Hlt|Hge].
    - change 256 with (2 ^ 8).
      rewrite Z.mul_pow2_bits_low by lia. reflexivity.
    - rewrite (Z.bits_above_log2 low n); [apply andb_false_r|lia|].
      destruct (Z.eq_dec low 0) as [->|Hz]; [simpl; lia|].
      apply Z.log2_lt_pow2; [lia|].
      apply Z.lt_le_trans with (2 ^ 8); [simpl; lia|].
      apply Z.pow_le_mono_r; lia. }
  rewrite <- Z.lxor_lor by exact Hd.
  rewrite <- Z.add_nocarry_lxor by exact Hd. lia.
Qed.

(** Two bytes decode as a big-endian two's complement number: the value
    lies in [[-32768, 32767]], equals [256 * high + low] modulo 65536, and
    is negative exactly when the top bit of the high byte is set. *)
Theorem raw_axis_twos_complement (data : list Z) (i : nat) (high low : Z) :
  nth_error data i = Some high ->
  nth_error data (S i) = Some low ->
  0 <= high < 256 ->
  0 <= low < 256 ->
  exists v,
    SimpleModel.raw_axis data i = Some v /\
    -32768 <= v < 32768 /\
    v mod 65536 = 256 * high + low /\
    (v < 0 <-> 128 <= high).
Proof.
  intros Hi Hj Hh Hl. unfold SimpleModel.raw_axis. rewrite Hi, Hj.
  rewrite join_bytes by lia.
  destruct (Z.leb_spec 32768 (256 * high + low)) as [H|H];
    eexists; (split; [reflexivity|]); (split; [lia|]); split; try lia.
  - symmetry. apply (Z.mod_unique _ _ (-1)); lia.
  - symmetry. apply (Z.mod_unique _ _ 0); lia.
Qed.

Lemma raw_axis_none (data : list Z) (i : nat) :
  SimpleModel.raw_axis data i = None <-> (length data < i + 2)%nat.
Proof.
  unfold SimpleModel.raw_axis.
  destruct (nth_error data i) as [a|] eqn:Ea;
    destruct (nth_error data (S i)) as [b|] eqn:Eb.
  - split; [discriminate|].
    intros H.
    assert (S i < length data)%nat
      by (apply nth_error_Some; rewrite Eb; discriminate).
    lia.
  - apply nth_error_None in Eb. split; [lia|reflexivity].
  - apply nth_error_None in Ea. split; [lia|reflexivity].
  - apply nth_error_None in Ea. split; [lia|reflexivity].
Qed.

(** A 16-bit value is within the range of floats whose exponents reach
    16. *)
Lemma raw_axis_in_range (data : list Z) (i : nat) (v : Z) :
  bytes data -> 16 < emax ->
  SimpleModel.raw_axis data i = Some v -> in_float_range v.
Proof.
  intros Hb He H. unfold SimpleModel.raw_axis in H.
  destruct (nth_error data i) as [high|] eqn:Ei; [|discriminate].
  destruct (nth_error data (S i)) as [low|] eqn:Ej; [|discriminate].
  unfold bytes in Hb. rewrite Forall_forall in Hb.
  pose proof (Hb _ (nth_error_In _ _ Ei)) as Hh.
  pose proof (Hb _ (nth_error_In _ _ Ej)) as Hl.
  rewrite join_bytes in H by lia.
  apply to_float_in_range.
  apply Z.lt_le_trans with (2 ^ 16).
  - change (2 ^ 16) with 65536.
    revert H.
    destruct (Z.leb_spec 32768 (256 * high + low)); intros Hv.
    + assert (Ev : v = 256 * high + low - 65536) by congruence. lia.
    + assert (Ev : v = 256 * high + low) by congruence. lia.
  - apply Z.pow_le_mono_r; lia.
Qed.

Lemma read_axis_eq (data : list Z) (i : nat) (scale unit : float) :
  bytes data -> 16 < emax -> is_zero scale = false ->
  SimpleModel.read_axis data i scale unit
  = match SimpleModel.raw_axis data i with
    | Some v => Ok (of_int v / scale * unit)%py
    | None => Raise IndexError
    end.
Proof.
  intros Hb He Hs. unfold SimpleModel.read_axis.
  destruct (SimpleModel.raw_axis data i) as [v|] eqn:E; [|reflexivity].
  rewrite (raw_axis_in_range data i v Hb He E). cbn [bind].
  unfold truediv. rewrite Hs. reflexivity.
Qed.

Lemma read_axes_eq (data : list Z) (scale unit : float) :
  bytes data -> 16 < emax -> is_zero scale = false ->
  SimpleModel.read_axes data scale unit
  = match SimpleModel.raw_axis data 0, SimpleModel.raw_axis data 2,
          SimpleModel.raw_axis data 4 with
    | Some x, Some y, Some z =>
      Ok (Vec.Build (of_int x / scale * unit)%py
                    (of_int y / scale * unit)%py
                    (of_int z / scale * unit)%py)
    | _, _, _ => Raise IndexError
    end.
Proof.
  intros Hb He Hs. unfold SimpleModel.read_axes.
  rewrite !read_axis_eq by assumption.
  destruct (SimpleModel.raw_axis data 0);
    destruct (SimpleModel.raw_axis data 2);
    destruct (SimpleModel.raw_axis data 4); reflexivity.
Qed.

(** On a block of bytes, and with floats whose exponents reach 16,
    [read_accel] and [read_gyro] raise [IndexError] exactly on a block of
    fewer than 6 bytes.  On 6 bytes or more they return the vector of the
    first 6: each axis is the signed 16-bit value of its two bytes, divided
    by the scale (16384.0, 131.0) and multiplied by the unit (9.81,
    0.0174533). *)
Theorem reads_need_six_bytes (data : list Z) :
  bytes data ->
  16 < emax ->
  let raw := fun high low : Z =>
    if 32768 <=? 256 * high + low
    then 256 * high + low - 65536 else 256 * high + low in
  let accel := fun v : Z => (of_int v / of_int 16384 * decimal 981 100)%py in
  let gyro := fun v : Z =>
    (of_int v / of_int 131 * decimal 174533 10000000)%py in
  ((length data < 6)%nat ->
   SimpleModel.read_accel data = Raise IndexError /\
   SimpleModel.read_gyro data = Raise IndexError)
  /\ (forall b0 b1 b2 b3 b4 b5 rest,
      data = b0 :: b1 :: b2 :: b3 :: b4 :: b5 :: rest ->
      SimpleModel.read_accel data
        = Ok (Vec.Build (accel (raw b0 b1)) (accel (raw b2 b3))
                        (accel (raw b4 b5))) /\
      SimpleModel.read_gyro data
        = Ok (Vec.Build (gyro (raw b0 b1)) (gyro (raw b2 b3))
                        (gyro (raw b4 b5)))).
Proof.
  intros Hb He. cbv zeta.
  assert (Ha : is_zero (of_int 16384) = false)
    by (apply of_int_nonzero; discriminate).
  assert (Hg : is_zero (of_int 131) = false)
    by (apply of_int_nonzero; discriminate).
  unfold SimpleModel.read_accel, SimpleModel.read_gyro.
  rewrite !read_axes_eq by assumption.
  split.
  - intros Hl.
    assert (H4 : SimpleModel.raw_axis data 4 = None)
      by (apply raw_axis_none; simpl; lia).
    rewrite H4.
    destruct (SimpleModel.raw_axis data 0);
      destruct (SimpleModel.raw_axis data 2); split; reflexivity.
  - intros b0 b1 b2 b3 b4 b5 rest ->.
    unfold bytes in Hb.
    repeat match goal with
           | H : Forall _ (_ :: _) |- _ => inversion H; clear H; subst
           end.
    unfold SimpleModel.raw_axis. cbn [nth_error].
    rewrite !join_bytes by lia. split; reflexivity.
Qed.
End Registers.

(** ** utils.py *)

Section UtilsFacts.
Context {P : Platform}.

(** [vector_magnitude] raises only where [**] does, an [OverflowError]:
    the sum of three squares is no negative argument for [math.sqrt],
    whatever the vector.  Where the squares are returned it returns the
    root of their sum; the result has a clear sign bit or is a NaN, and it
    is no NaN when no component is one. *)
Theorem vector_magnitude_defined (vector : Vec.t) :
  square_documented ->
  (forall e, Utils.vector_magnitude vector = Raise e -> e = OverflowError)
  /\ (forall x2 y2 z2,
      square (Vec.x vector) = Ok x2 ->
      square (Vec.y vector) = Ok y2 ->
      square (Vec.z vector) = Ok z2 ->
      Utils.vector_magnitude vector = Ok (fsqrt (x2 + y2 + z2)%py) /\
      nonneg (fsqrt (x2 + y2 + z2)%py) = true /\
      (no_nan vector -> signed false (fsqrt (x2 + y2 + z2)%py))).
Proof.
  intros H.
  assert (Hok : forall x2 y2 z2,
             square (Vec.x vector) = Ok x2 ->
             square (Vec.y vector) = Ok y2 ->
             square (Vec.z vector) = Ok z2 ->
             Utils.vector_magnitude vector = Ok (fsqrt (x2 + y2 + z2)%py) /\
             nonneg (fsqrt (x2 + y2 + z2)%py) = true /\
             (no_nan vector -> signed false (fsqrt (x2 + y2 + z2)%py))).
  { intros x2 y2 z2 Hx Hy Hz.
    pose proof (square_nonneg _ _ H Hx) as Nx.
    pose proof (square_nonneg _ _ H Hy) as Ny.
    pose proof (square_nonneg _ _ H Hz) as Nz.
    assert (Hs : nonneg (x2 + y2 + z2)%py = true)
      by (repeat apply SFadd_nonneg; assumption).
    unfold Utils.vector_magnitude. rewrite Hx, Hy, Hz. cbn [bind].
    rewrite (math_sqrt_nonneg _ Hs).
    split; [reflexivity|]. split.
    - apply SFsqrt_nonneg. exact Hs.
    - intros (Vx & Vy & Vz). apply SFsqrt_signed.
      pose proof (H (Vec.x vector)) as Dx. rewrite Hx in Dx.
      pose proof (H (Vec.y vector)) as Dy. rewrite Hy in Dy.
      pose proof (H (Vec.z vector)) as Dz. rewrite Hz in Dz.
      repeat apply SFadd_signed; apply nonneg_signed;
        solve [assumption | apply Dx; assumption | apply Dy; assumption
               | apply Dz; assumption]. }
  split; [|exact Hok].
  intros e. unfold Utils.vector_magnitude.
  destruct (square (Vec.x vector)) as [x2|ex] eqn:Hx; cbn [bind].
  - destruct (square (Vec.y vector)) as [y2|ey] eqn:Hy; cbn [bind].
    + destruct (square (Vec.z vector)) as [z2|ez] eqn:Hz; cbn [bind].
      * destruct (Hok x2 y2 z2 eq_refl eq_refl eq_refl) as [E _].
        unfold Utils.vector_magnitude in E.
        rewrite Hx, Hy, Hz in E. cbn [bind] in E. rewrite E. discriminate.
      * intros E. inversion E; subst. exact (square_raise _ _ H Hz).
    + intros E. inversion E; subst. exact (square_raise _ _ H Hy).
  - intros E. inversion E; subst. exact (square_raise _ _ H Hx).
Qed.
End UtilsFacts.

(** ** The theorems at work, in double precision *)

Section Examples.
Local Existing Instance Reference.binary64.

Lemma processor64_is_new : Pr.__init__ 100 0 0 = Ok processor64.
Proof. vm_compute. reflexivity. Qed.

Lemma stepped64_is_next :
  Pr.update processor64 level64 turning64 20 20 20
    = Ok (stepped64, Some (Angles.Build (f64 19 1000) zero)).
Proof. vm_compute. reflexivity. Qed.

Lemma epsilon64_positive : (zero < F.epsilon)%py = true.
Proof. vm_compute. reflexivity. Qed.

Lemma thousand64_finite : thousand_finite.
Proof. eexists. eexists. vm_compute. reflexivity. Qed.

Lemma ready64 : ready (Pr.filter processor64).
Proof. split; discriminate. Qed.

Lemma level64_squares : squares_return level64.
Proof. do 3 eexists. repeat split. Qed.

Lemma tilted64_squares : squares_return tilted64.
Proof. do 3 eexists. repeat split. Qed.

(** Three samples: the offset is assigned, nothing else. *)
Lemma calibrate_gyro_assigns_offset_only_witness :
  1 <= 3 /\
  in_float_range 3 /\
  exists self' offset,
    Pr.calibrate_gyro processor64 biased64 3 = Ok (self', offset) /\
    Pr.gyro_offset self' = offset /\
    Pr.filter self' = Pr.filter processor64 /\
    F.pitch (Pr.filter self') = F.pitch (Pr.filter processor64) /\
    F.roll (Pr.filter self') = F.roll (Pr.filter processor64) /\
    F.pitch_weight (Pr.filter self') = F.pitch_weight (Pr.filter processor64) /\
    F.roll_weight (Pr.filter self') = F.roll_weight (Pr.filter processor64) /\
    Pr.accel_offset self' = Pr.accel_offset processor64 /\
    Pr.min_interval self' = Pr.min_interval processor64 /\
    Pr.last_update self' = Pr.last_update processor64 /\
    Pr.update_rate self' = Pr.update_rate processor64.
Proof.
  assert (Hr : in_float_range 3) by reflexivity.
  split; [lia|]. split; [exact Hr|].
  apply (calibrate_gyro_assigns_offset_only processor64 biased64 3);
    [lia | exact Hr].
Defined.

(** Three samples of 0.1 on every axis: the offset is the rounded mean. *)
Lemma calibrate_gyro_fixed_source_witness :
  (forall i, biased64 i = Vec.Build (f64 1 10) (f64 1 10) (f64 1 10)) /\
  1 <= 3 /\
  in_float_range 3 /\
  let offset := Vec.Build (constant_mean 3 (f64 1 10))
                          (constant_mean 3 (f64 1 10))
                          (constant_mean 3 (f64 1 10)) in
  Pr.calibrate_gyro processor64 biased64 3
    = Ok (Pr.with_gyro_offset offset processor64, offset)
  /\ forall later accel gyro now_gate now now_filter later' angles,
       Pr.gyro_offset later = offset ->
       Pr.update later accel gyro now_gate now now_filter
         = Ok (later', Some angles) ->
       exists f,
         F.update (Pr.filter later) accel
           (Vec.Build (Vec.x gyro - Vec.x offset)%py
                      (Vec.y gyro - Vec.y offset)%py
                      (Vec.z gyro - Vec.z offset)%py)
           (Some (seconds_between now (Pr.last_update later))) now_filter
           = Ok (f, angles) /\
         Pr.filter later' = f /\
         Pr.gyro_offset later' = offset.
Proof.
  assert (Hr : in_float_range 3) by reflexivity.
  split; [reflexivity|]. split; [lia|]. split; [exact Hr|].
  apply (calibrate_gyro_fixed_source processor64 biased64
           (Vec.Build (f64 1 10) (f64 1 10) (f64 1 10)) 3).
  - reflexivity.
  - lia.
  - exact Hr.
Defined.

(** The sensor with its x axis up: the root under the pitch is 0, and the
    denominator handed to [math.atan2] is [1e-10]; the root under the roll
    is 1 and is handed on as it is. *)
Lemma accel_angles_are_guarded_witness :
  square_documented /\
  (zero < decimal 1 (10 ^ 10))%py = true /\
  F._get_accel_pitch sideways64
    = Ok (atan2 (- f64 1 1)%py (f64 1 (10 ^ 10))) /\
  is_zero (f64 1 (10 ^ 10)) = false /\
  F._get_accel_roll sideways64 = Ok (atan2 zero (f64 1 1)).
Proof.
  split; [exact binary64_square_documented|].
  split; [exact epsilon64_positive|].
  destruct (proj1 (accel_angles_are_guarded sideways64
                     binary64_square_documented epsilon64_positive)
              (f64 1 1) zero zero eq_refl eq_refl eq_refl)
    as (Hp & Hz & Hr & _).
  split; [exact Hp|]. split; [exact Hz|]. exact Hr.
Defined.

(** The tilted sensor: both angles lie within [[-pi, pi]]. *)
Lemma accel_angles_within_pi_witness :
  square_documented /\
  (zero < decimal 1 (10 ^ 10))%py = true /\
  atan2_documented /\
  no_nan tilted64 /\
  squares_return tilted64 /\
  exists pitch_d roll_d accel_pitch accel_roll,
    F.pitch_denominator tilted64 = Ok pitch_d /\
    F.roll_denominator tilted64 = Ok roll_d /\
    (zero < pitch_d)%py = true /\
    (zero < roll_d)%py = true /\
    F._get_accel_pitch tilted64 = Ok accel_pitch /\
    F._get_accel_roll tilted64 = Ok accel_roll /\
    (- math_pi <= accel_pitch)%py = true /\
    (accel_pitch <= math_pi)%py = true /\
    (- math_pi <= accel_roll)%py = true /\
    (accel_roll <= math_pi)%py = true.
Proof.
  split; [exact binary64_square_documented|].
  split; [exact epsilon64_positive|].
  split; [exact binary64_atan2_documented|].
  assert (Hn : no_nan tilted64) by (repeat split).
  split; [exact Hn|]. split; [exact tilted64_squares|].
  apply (accel_angles_within_pi tilted64 binary64_square_documented
           epsilon64_positive binary64_atan2_documented Hn tilted64_squares).
Defined.

Lemma fast64_is_new : Pr.__init__ 2000 0 0 = Ok fast64.
Proof. vm_compute. reflexivity. Qed.

(** 11 ms after the update at tick 20 the gate of [stepped64] is open. *)
Lemma gate_over_time_witness :
  0 < ticks_bits /\
  Pr.last_update stepped64 = tick 20 /\
  (0 <= 11 < 2 ^ (ticks_bits - 1) ->
   Pr.should_update stepped64 (tick (20 + 11))
     = (stepped64, Pr.min_interval stepped64 <=? 11))
  /\ (2 ^ (ticks_bits - 1) <= 11 < 2 ^ ticks_bits ->
      0 <= Pr.min_interval stepped64 ->
      forall accel gyro now now_filter,
      Pr.update stepped64 accel gyro (tick (20 + 11)) now now_filter
        = Ok (stepped64, None)).
Proof.
  assert (Hb : 0 < ticks_bits) by reflexivity.
  assert (Hl : Pr.last_update stepped64 = tick 20) by reflexivity.
  split; [exact Hb|]. split; [exact Hl|].
  exact (gate_over_time stepped64 20 11 Hb Hl).
Defined.

(** Two calls within 10 ms of the update of [stepped64] are skipped. *)
Lemma burst_is_skipped_witness :
  Forall (fun c => ticks_diff (call_gate c) (Pr.last_update stepped64)
                   < Pr.min_interval stepped64) burst64 /\
  update_all stepped64 burst64
    = Ok (stepped64, map (fun _ => None) burst64).
Proof.
  assert (H : Forall (fun c => ticks_diff (call_gate c)
                                 (Pr.last_update stepped64)
                               < Pr.min_interval stepped64) burst64)
    by (repeat constructor).
  split; [exact H|].
  exact (burst_is_skipped stepped64 burst64 H).
Defined.

(** At 2000 Hz [min_interval] is 0. *)
Lemma min_interval_of_rate_witness :
  0 < ticks_bits /\
  Pr.__init__ 2000 0 0 = Ok fast64 /\
  Pr.min_interval fast64 = 1000 / 2000
  /\ (1 <= 2000 <= 1000 -> 1 <= Pr.min_interval fast64 <= 1000)
  /\ (1000 < 2000 ->
      Pr.min_interval fast64 = 0 /\
      (forall now, 0 <= ticks_diff now (Pr.last_update fast64) ->
                   snd (Pr.should_update fast64 now) = true) /\
      snd (Pr.should_update fast64 (Pr.last_update fast64)) = true).
Proof.
  assert (Hb : 0 < ticks_bits) by reflexivity.
  split; [exact Hb|]. split; [exact fast64_is_new|].
  exact (min_interval_of_rate 2000 0 0 fast64 Hb fast64_is_new).
Defined.

(** The update at tick 20 integrates a step of 0.02 s. *)
Lemma accepted_step_not_negative_witness :
  thousand_finite /\
  Pr.update processor64 level64 turning64 20 20 20
    = Ok (stepped64, Some (Angles.Build (f64 19 1000) zero)) /\
  0 <= ticks_diff 20 (Pr.last_update processor64) /\
  F.dt (Pr.filter stepped64)
    = seconds_between 20 (Pr.last_update processor64) /\
  signed false (F.dt (Pr.filter stepped64)) /\
  (F.dt (Pr.filter stepped64) < zero)%py = false.
Proof.
  assert (Hn : 0 <= ticks_diff 20 (Pr.last_update processor64))
    by (vm_compute; discriminate).
  split; [exact thousand64_finite|]. split; [exact stepped64_is_next|].
  split; [exact Hn|].
  exact (accepted_step_not_negative processor64 stepped64 level64 turning64
           20 20 20 (Angles.Build (f64 19 1000) zero)
           thousand64_finite stepped64_is_next Hn).
Defined.

(** The new processor hands [turning64] to the filter as it is. *)
Lemma uncalibrated_passes_raw_gyro_witness :
  Pr.__init__ 100 0 0 = Ok processor64 /\
  Pr.min_interval processor64 <= ticks_diff 20 (Pr.last_update processor64) /\
  Utils.apply_calibration turning64 (Pr.gyro_offset processor64) = turning64 /\
  Pr.update processor64 level64 turning64 20 20 20 =
  ' (f, angles) <-
      F.update (Pr.filter processor64) level64 turning64
        (Some (seconds_between 20 (Pr.last_update processor64))) 20 ;;
  Ok (Pr.with_filter f (Pr.with_last_update 20 processor64), Some angles).
Proof.
  assert (Hd : Pr.min_interval processor64
               <= ticks_diff 20 (Pr.last_update processor64))
    by (vm_compute; discriminate).
  split; [exact processor64_is_new|]. split; [exact Hd|].
  exact (uncalibrated_passes_raw_gyro 100 0 0 processor64 level64 turning64
           20 20 20 processor64_is_new Hd).
Defined.

(** A sample count of -2 stores the negative zero. *)
Lemma calibrate_gyro_negative_count_witness :
  -2 < 0 /\
  let minus_zero := Vec.Build (S754_zero true) (S754_zero true)
                              (S754_zero true) in
  Pr.calibrate_gyro stepped64 biased64 (-2)
    = Ok (Pr.with_gyro_offset minus_zero stepped64, minus_zero).
Proof.
  assert (H : -2 < 0) by reflexivity.
  split; [exact H|].
  exact (calibrate_gyro_negative_count stepped64 biased64 (-2) H).
Defined.

(** [ComplementaryFilter(100, 2.0)] has no weights: [update] raises
    [AttributeError], and still does after [set_weights(pitch_weight=0.5)]
    has returned [True]. *)
Lemma rejected_initial_weight_witness :
  square_documented /\
  100 <> 0 /\
  in_float_range 100 /\
  F.in_unit_interval (f64 2 1) = false /\
  exists f,
    F.__init__ 100 (f64 2 1) 0 = Ok f /\
    F.pitch_weight f = None /\
    F.roll_weight f = None /\
    F.update f level64 turning64 None 5 = Raise AttributeError /\
    F.set_weights f None (Some (f64 1 2)) None
      = (F.with_pitch_weight (f64 1 2) f, true) /\
    F.update (F.with_pitch_weight (f64 1 2) f) level64 turning64 None 5
      = Raise AttributeError.
Proof.
  assert (Hr : 100 <> 0) by discriminate.
  assert (Hi : in_float_range 100) by reflexivity.
  assert (Hw : F.in_unit_interval (f64 2 1) = false) by reflexivity.
  split; [exact binary64_square_documented|].
  split; [exact Hr|]. split; [exact Hi|]. split; [exact Hw|].
  destruct (rejected_initial_weight_leaves_none 100 (f64 2 1) 0
              binary64_square_documented Hr Hi Hw)
    as (f & E & Hp & Hq & _ & Ha & Hs & _).
  exists f. split; [exact E|]. split; [exact Hp|]. split; [exact Hq|].
  split; [exact (Ha level64 turning64 None 5 level64_squares)|].
  destruct (Hs (f64 1 2) level64 turning64 None 5 eq_refl level64_squares)
    as (S1 & U1 & _).
  split; [exact S1 | exact U1].
Defined.

(** A second point fits a logger of size 2 that holds one. *)
Lemma add_data_point_keeps_aligned_witness :
  aligned logger64 1 /\
  exists self',
    L.add_data_point logger64 (Angles.Build (f64 19 1000) zero) None None 30
      = Some self' /\
    aligned self' (if L.buffer_size logger64 <? Z.of_nat 2 then 1%nat else 2%nat) /\
    L.buffer_size self' = L.buffer_size logger64 /\
    L.start_time self' = L.start_time logger64.
Proof.
  assert (H : aligned logger64 1) by (repeat split).
  split; [exact H|].
  exact (add_data_point_keeps_aligned logger64 1
           (Angles.Build (f64 19 1000) zero) None None 30 H).
Defined.

(** The bytes 255, 0 decode to -256. *)
Lemma raw_axis_twos_complement_witness :
  nth_error block64 0 = Some 255 /\
  nth_error block64 1 = Some 0 /\
  0 <= 255 < 256 /\
  0 <= 0 < 256 /\
  exists v,
    SimpleModel.raw_axis block64 0 = Some v /\
    -32768 <= v < 32768 /\
    v mod 65536 = 256 * 255 + 0 /\
    (v < 0 <-> 128 <= 255).
Proof.
  assert (Hh : 0 <= 255 < 256) by lia.
  assert (Hl : 0 <= 0 < 256) by lia.
  split; [reflexivity|]. split; [reflexivity|].
  split; [exact Hh|]. split; [exact Hl|].
  exact (raw_axis_twos_complement block64 0 255 0 eq_refl eq_refl Hh Hl).
Defined.

(** The block 255, 0, 64, 0, 0, 1 reads -256, 16384 and 1: the
    acceleration is (-0.15328125, 9.81, 0.0005987548828125) and the rate
    (-0.03410721221374046, 2.1828615816793895, 0.00013323129770992367). *)
Lemma reads_need_six_bytes_witness :
  bytes block64 /\
  16 < emax /\
  SimpleModel.read_accel block64
    = Ok (Vec.Build (S754_finite true 5522539043063071 (-55))
                    (f64 981 100)
                    (S754_finite false 5522539043063071 (-63))) /\
  SimpleModel.read_gyro block64
    = Ok (Vec.Build (S754_finite true 4915367302926335 (-57))
                    (S754_finite false 4915367302926335 (-51))
                    (S754_finite false 4915367302926335 (-65))).
Proof.
  assert (Hb : bytes block64) by (repeat constructor; discriminate).
  assert (He : 16 < emax) by reflexivity.
  split; [exact Hb|]. split; [exact He|].
  destruct (proj2 (reads_need_six_bytes block64 Hb He)
              255 0 64 0 0 1 [] eq_refl) as [Ha Hg].
  split.
  - refine (eq_trans Ha _). vm_compute. reflexivity.
  - refine (eq_trans Hg _). vm_compute. reflexivity.
Defined.

(** In double precision [2^1024] is beyond the range of the floats: as an
    update rate and as a sample count it raises [OverflowError].
    [2^1023 - 1] is within the range. *)
Lemma overflow_exactly_beyond_range_witness :
  ~ in_float_range (2 ^ 1024) /\
  F.__init__ (2 ^ 1024) (f64 95 100) 0 = Raise OverflowError /\
  Pr.__init__ (2 ^ 1024) 0 0 = Raise OverflowError /\
  Pr.calibrate_gyro processor64 biased64 (2 ^ 1024) = Raise OverflowError /\
  in_float_range (2 ^ 1023 - 1).
Proof.
  assert (Hn : ~ in_float_range (2 ^ 1024))
    by (intros H; vm_compute in H; discriminate).
  destruct overflow_exactly_beyond_range as (HF & HP & HC & HR).
  split; [exact Hn|].
  split; [apply HF; exact Hn|].
  split; [apply HP; exact Hn|].
  split; [apply HC; split; [reflexivity | exact Hn]|].
  apply HR. vm_compute. reflexivity.
Defined.

(** The vector (3, 4, 12) has the magnitude 13. *)
Lemma vector_magnitude_defined_witness :
  square_documented /\
  Utils.vector_magnitude (Vec.Build (f64 3 1) (f64 4 1) (f64 12 1))
    = Ok (f64 13 1).
Proof.
  split; [exact binary64_square_documented|].
  refine (eq_trans
            (proj1 (proj2 (vector_magnitude_defined
                             (Vec.Build (f64 3 1) (f64 4 1) (f64 12 1))
                             binary64_square_documented)
                      (f64 9 1) (f64 16 1) (f64 144 1)
                      eq_refl eq_refl eq_refl)) _).
  vm_compute. reflexivity.
Defined.
End Examples.

(** ** Multiplying and dividing by 1 is exact *)

Section Exact.
Variables (fprec femax : Z).
Hypothesis fprec_pos : 0 < fprec.
Hypothesis fprec_lt_femax : fprec < femax.

Lemma Zdigits2_shifted (m : positive) (k : Z) :
  0 <= k -> Zdigits2 (Zpos m * 2 ^ k) = Zdigits2 (Zpos m) + k.
Proof.
  intros Hk.
  assert (Hp : 0 < Zpos m * 2 ^ k)
    by (apply Z.mul_pos_pos; [lia|apply Z.pow_pos_nonneg; lia]).
  destruct (Zpos m * 2 ^ k) as [|q|q] eqn:E; try lia.
  rewrite !Zdigits2_log2, <- E.
  rewrite Z.log2_mul_pow2 by lia. lia.
Qed.

Lemma shr_1_double (m : Z) :
  0 <= m ->
  shr_1 (Build_shr_record (m * 2) false false) = Build_shr_record m false false.
Proof.
  intros H. destruct m as [|p|p]; try lia; try reflexivity.
  replace (Zpos p * 2) with (Zpos p~0) by lia. reflexivity.
Qed.

Lemma iter_shr_1_exact (k : positive) :
  forall m, 0 <= m ->
  iter_pos shr_1 k (Build_shr_record (m * 2 ^ Zpos k) false false)
    = Build_shr_record m false false.
Proof.
  induction k as [k IH|k IH|]; intros m Hm; cbn [iter_pos];
    try assert (Hk : 0 < 2 ^ Zpos k) by (apply Z.pow_pos_nonneg; lia).
  - rewrite pow2_xI.
    replace (m * (2 * (2 ^ Zpos k * 2 ^ Zpos k)))
      with (m * 2 ^ Zpos k * 2 ^ Zpos k * 2) by ring.
    rewrite shr_1_double by nia.
    rewrite IH by nia. apply IH. exact Hm.
  - rewrite pow2_xO.
    replace (m * (2 ^ Zpos k * 2 ^ Zpos k))
      with (m * 2 ^ Zpos k * 2 ^ Zpos k) by ring.
    rewrite IH by nia. apply IH. exact Hm.
  - change (2 ^ 1) with 2. apply shr_1_double. exact Hm.
Qed.

(** A canonical mantissa scaled by a power of two rounds back to itself. *)
Lemma round_exact_shifted (s : bool) (m : positive) (e k : Z) :
  0 <= k ->
  bounded fprec femax m e = true ->
  binary_round_aux fprec femax s (Zpos m * 2 ^ k) (e - k) loc_Exact
    = S754_finite s m e.
Proof.
  intros Hk Hb. unfold bounded, canonical_mantissa in Hb.
  apply andb_prop in Hb. destruct Hb as [Hc Hb].
  apply Z.eqb_eq in Hc. apply Z.leb_le in Hb.
  change (Zpos (digits2_pos m)) with (Zdigits2 (Zpos m)) in Hc.
  unfold binary_round_aux.
  assert (H1 : shr_fexp fprec femax (Zpos m * 2 ^ k) (e - k) loc_Exact
               = (Build_shr_record (Zpos m) false false, e)).
  { unfold shr_fexp. rewrite Zdigits2_shifted by exact Hk.
    replace (Zdigits2 (Zpos m) + k + (e - k)) with (Zdigits2 (Zpos m) + e)
      by lia.
    rewrite Hc. replace (e - (e - k)) with k by lia.
    cbn [shr_record_of_loc]. unfold shr.
    destruct k as [|kp|kp]; try lia.
    - f_equal; [|lia]. f_equal. change (2 ^ 0) with 1. lia.
    - rewrite iter_shr_1_exact by lia. f_equal. lia. }
  rewrite H1. cbn [shr_m loc_of_shr_record round_nearest_even].
  assert (H2 : shr_fexp fprec femax (Zpos m) e loc_Exact
               = (Build_shr_record (Zpos m) false false, e)).
  { unfold shr_fexp. rewrite Hc. replace (e - e) with 0 by lia. reflexivity. }
  rewrite H2. cbn [shr_m].
  apply Z.leb_le in Hb. rewrite Hb. reflexivity.
Qed.

Lemma iter_xO_pow2 (m d : positive) :
  Zpos (Pos.iter xO m d) = Zpos m * 2 ^ Zpos d.
Proof.
  induction d as [|d IH] using Pos.peano_ind.
  - simpl. lia.
  - rewrite Pos.iter_succ, Pos2Z.inj_succ, Z.pow_succ_r by lia.
    rewrite Pos2Z.inj_xO, IH. ring.
Qed.

Lemma fexp_one : fexp fprec femax 1 = 1 - fprec.
Proof. unfold fexp, emin. lia. Qed.

(** The float 1: the mantissa [2^(prec - 1)] at the exponent [1 - prec]. *)
Lemma one_float :
  exists m1,
    binary_normalize fprec femax 1 0 false = S754_finite false m1 (1 - fprec)
    /\ Zpos m1 = 2 ^ (fprec - 1).
Proof.
  assert (Hm : exists m1, Zpos m1 = 2 ^ (fprec - 1)).
  { assert (0 < 2 ^ (fprec - 1)) by (apply Z.pow_pos_nonneg; lia).
    destruct (2 ^ (fprec - 1)) as [|q|q]; try lia. exists q. reflexivity. }
  destruct Hm as (m1 & Hm1). exists m1. split; [|exact Hm1].
  assert (Hb : bounded fprec femax m1 (1 - fprec) = true).
  { unfold bounded, canonical_mantissa.
    change (Zpos (digits2_pos m1)) with (Zdigits2 (Zpos m1)).
    rewrite Zdigits2_log2, Hm1, Z.log2_pow2 by lia.
    replace (fprec - 1 + 1 + (1 - fprec)) with 1 by lia.
    rewrite fexp_one, Z.eqb_refl. cbn [andb]. apply Z.leb_le. lia. }
  cbn [binary_normalize]. unfold binary_round.
  cbn [digits2_pos]. replace (1 + 0) with 1 by lia. rewrite fexp_one.
  pose proof (round_exact_shifted false m1 (1 - fprec) 0 ltac:(lia) Hb) as H.
  change (2 ^ 0) with 1 in H. rewrite Z.mul_1_r, Z.sub_0_r in H.
  unfold shl_align.
  destruct (1 - fprec - 0) as [|d|d] eqn:E; try lia.
  - assert (H0 : 1 - fprec = 0) by lia.
    assert (H2 : Zpos m1 = 1)
      by (rewrite Hm1; replace (fprec - 1) with 0 by lia; reflexivity).
    rewrite H2, H0 in H. rewrite H0. exact H.
  - assert (Hd : Zpos d = fprec - 1) by lia.
    rewrite iter_xO_pow2, Hd, Z.mul_1_l, <- Hm1. exact H.
Qed.

(** Multiplying a float of the format by 1 changes nothing. *)
Lemma SFmul_one (a : float) :
  valid_binary fprec femax a = true ->
  SFmul fprec femax (binary_normalize fprec femax 1 0 false) a = a.
Proof.
  destruct one_float as (m1 & H1 & Hm1). rewrite H1.
  destruct a as [s|s| |s m e]; try reflexivity.
  cbn [valid_binary SFmul xorb]. intros Hb.
  rewrite Pos2Z.inj_mul, Hm1, Z.mul_comm.
  replace (1 - fprec + e) with (e - (fprec - 1)) by lia.
  apply round_exact_shifted; [lia|exact Hb].
Qed.

Lemma div_eucl_exact (q d : Z) :
  0 < d -> Z.div_eucl (q * d) d = (q, 0).
Proof.
  intros Hd.
  pose proof (Z.div_mul q d ltac:(lia)) as H1.
  pose proof (Z.mod_mul q d ltac:(lia)) as H2.
  unfold Z.div, Z.modulo in *.
  destruct (Z.div_eucl (q * d) d). simpl in *. congruence.
Qed.

(** Dividing a float of the format by 1 changes nothing. *)
Lemma SFdiv_one (a : float) :
  valid_binary fprec femax a = true ->
  SFdiv fprec femax a (binary_normalize fprec femax 1 0 false) = a.
Proof.
  destruct one_float as (m1 & H1 & Hm1). rewrite H1.
  destruct a as [s|s| |s m e]; try (destruct s; reflexivity); try reflexivity.
  cbn [valid_binary SFdiv]. intros Hb.
  assert (Hb' := Hb). unfold bounded, canonical_mantissa in Hb'.
  apply andb_prop in Hb'. destruct Hb' as [Hc _]. apply Z.eqb_eq in Hc.
  change (Zpos (digits2_pos m)) with (Zdigits2 (Zpos m)) in Hc.
  unfold SFdiv_core_binary.
  rewrite (Zdigits2_log2 m1), Hm1, Z.log2_pow2 by lia.
  set (d := Zdigits2 (Zpos m)) in *.
  set (e' := Z.min (fexp fprec femax (d + e - (fprec - 1 + 1 + (1 - fprec))))
                   (e - (1 - fprec))).
  assert (He : e' <= e) by (subst e'; unfold fexp in *; lia).
  assert (Hs : e - (1 - fprec) - e' = fprec - 1 + (e - e')) by lia.
  rewrite Hs.
  assert (Hq : match fprec - 1 + (e - e') with
               | 0 => Zpos m
               | Zpos _ => Z.shiftl (Zpos m) (fprec - 1 + (e - e'))
               | Zneg _ => 0
               end = Zpos m * 2 ^ (e - e') * 2 ^ (fprec - 1)).
  { rewrite <- Z.mul_assoc, <- Z.pow_add_r by lia.
    replace (e - e' + (fprec - 1)) with (fprec - 1 + (e - e')) by lia.
    destruct (fprec - 1 + (e - e')) as [|p|p] eqn:Ep;
      [change (2 ^ 0) with 1; lia
      |rewrite Z.shiftl_mul_pow2 by lia; reflexivity
      |lia]. }
  rewrite Hq.
  rewrite div_eucl_exact by (apply Z.pow_pos_nonneg; lia).
  replace (new_location (2 ^ (fprec - 1)) 0) with loc_Exact
    by (unfold new_location, new_location_even, new_location_odd;
        destruct (Z.even (2 ^ (fprec - 1))); reflexivity).
  rewrite xorb_false_r.
  replace e' with (e - (e - e')) at 2 by lia.
  apply round_exact_shifted; [lia|exact Hb].
Qed.
End Exact.

(** ** The weights 0 and 1, and a single sample *)

Section Extremes.
Context {P : Platform}.

Lemma fmul_one (a : float) : is_float a = true -> (one * a)%py = a.
Proof.
  destruct format_ok as [Hp He].
  exact (SFmul_one prec emax Hp He a).
Qed.

Lemma fdiv_one (a : float) : is_float a = true -> (a / one)%py = a.
Proof.
  destruct format_ok as [Hp He].
  exact (SFdiv_one prec emax Hp He a).
Qed.

Lemma one_is_finite : exists m e, one = S754_finite false m e.
Proof.
  destruct format_ok as [Hp He].
  destruct (one_float prec emax Hp He) as (m1 & H & _).
  exists m1, (1 - prec). exact H.
Qed.

Lemma fsub_one_zero (w : float) : is_zero w = true -> (one - w)%py = one.
Proof.
  destruct one_is_finite as (m & e & H). rewrite H.
  destruct w; try discriminate. reflexivity.
Qed.

Lemma fsub_one_one : (one - one)%py = zero.
Proof.
  destruct one_is_finite as (m & e & H). rewrite H.
  unfold fsub, SFsub. rewrite Z.sub_diag. reflexivity.
Qed.

Lemma fmul_zero_finite (w a : float) :
  is_zero w = true -> finite a = true -> is_zero (w * a)%py = true.
Proof. destruct w, a; try discriminate; reflexivity. Qed.

Lemma same_number_add_zero_l (w a : float) :
  is_zero w = true -> same_number (w + a)%py a.
Proof.
  destruct w as [[]| | |]; try discriminate;
    destruct a as [[]|[]| |[] m e]; intros _;
    first [left; reflexivity | right; split; reflexivity].
Qed.

Lemma same_number_add_zero_r (a w : float) :
  is_zero w = true -> same_number (a + w)%py a.
Proof.
  destruct w as [[]| | |]; try discriminate;
    destruct a as [[]|[]| |[] m e]; intros _;
    first [left; reflexivity | right; split; reflexivity].
Qed.

Lemma is_float_add_zero (a : float) :
  is_float a = true -> is_float (zero + a)%py = true.
Proof. destruct a as [[]|[]| |[] m e]; intros H; first [exact H|reflexivity]. Qed.

Lemma one_in_float_range : in_float_range 1.
Proof.
  apply to_float_in_range. destruct format_ok as [Hp He].
  apply Z.lt_le_trans with (2 ^ 1); [reflexivity|].
  apply Z.pow_le_mono_r; lia.
Qed.

(** With a sample count of 1 the offset is the one sample itself, a
    negative zero apart, which is stored as the positive zero. *)
Theorem calibrate_gyro_single_sample
    (self : Pr.t) (read_gyro_func : nat -> Vec.t) (b : Vec.t) :
  read_gyro_func O = b ->
  is_float (Vec.x b) = true ->
  is_float (Vec.y b) = true ->
  is_float (Vec.z b) = true ->
  exists offset,
    Pr.calibrate_gyro self read_gyro_func 1
      = Ok (Pr.with_gyro_offset offset self, offset) /\
    same_number (Vec.x offset) (Vec.x b) /\
    same_number (Vec.y offset) (Vec.y b) /\
    same_number (Vec.z offset) (Vec.z b).
Proof.
  intros Hb Hx Hy Hz.
  rewrite calibrate_gyro_ok by (try exact one_in_float_range; lia).
  cbv zeta.
  change (Z.to_nat 1) with 1%nat. cbn [Pr.accumulate Vec.x Vec.y Vec.z].
  rewrite Hb. fold one.
  rewrite !fdiv_one by (apply is_float_add_zero; assumption).
  eexists. split; [reflexivity|].
  cbn [Vec.x Vec.y Vec.z].
  repeat split; apply same_number_add_zero_l; reflexivity.
Qed.

(** With both weights 0 one update puts the accelerometer angles in place
    of the estimate, whatever the estimate, the gyroscope reading and the
    time step were, as long as the integrated angles are finite. *)
Theorem zero_weights_follow_accel
    (self : F.t) (accel gyro : Vec.t) (dt : option float) (now : Z)
    (pw rw accel_pitch accel_roll : float) :
  F.pitch_weight self = Some pw ->
  F.roll_weight self = Some rw ->
  is_zero pw = true ->
  is_zero rw = true ->
  F._get_accel_pitch accel = Ok accel_pitch ->
  F._get_accel_roll accel = Ok accel_roll ->
  is_float accel_pitch = true ->
  is_float accel_roll = true ->
  finite (F.pitch self + Vec.y gyro * F.time_step self dt now)%py = true ->
  finite (F.roll self + Vec.x gyro * F.time_step self dt now)%py = true ->
  exists self' new_pitch new_roll,
    F.update self accel gyro dt now
      = Ok (self', Angles.Build new_pitch new_roll) /\
    F.pitch self' = new_pitch /\
    F.roll self' = new_roll /\
    same_number new_pitch accel_pitch /\
    same_number new_roll accel_roll.
Proof.
  intros Hp Hr Zp Zr Ep Er Vp Vr Fp Fr.
  unfold F.update. rewrite Ep, Er.
  destruct self as [rate wp wr p r last d]. simpl in *. subst wp wr. simpl.
  do 3 eexists. split; [reflexivity|]. split; [reflexivity|].
  split; [reflexivity|].
  rewrite !fsub_one_zero by assumption.
  rewrite !fmul_one by assumption.
  split; apply same_number_add_zero_l; apply fmul_zero_finite; assumption.
Qed.

(** With both weights 1 the accelerometer angles, when finite, enter the
    new estimate as a zero only: the new pitch is [1 * (pitch + gyro.y *
    dt)] and the new roll [1 * (roll + gyro.x * dt)], which are the
    integrated angles themselves when these are floats of the format. *)
Theorem unit_weights_integrate_gyro_only
    (self : F.t) (accel gyro : Vec.t) (dt : option float) (now : Z)
    (accel_pitch accel_roll : float) :
  F.pitch_weight self = Some one ->
  F.roll_weight self = Some one ->
  F._get_accel_pitch accel = Ok accel_pitch ->
  F._get_accel_roll accel = Ok accel_roll ->
  finite accel_pitch = true ->
  finite accel_roll = true ->
  let gyro_pitch := (F.pitch self + Vec.y gyro * F.time_step self dt now)%py in
  let gyro_roll := (F.roll self + Vec.x gyro * F.time_step self dt now)%py in
  exists self' new_pitch new_roll,
    F.update self accel gyro dt now
      = Ok (self', Angles.Build new_pitch new_roll) /\
    same_number new_pitch (one * gyro_pitch)%py /\
    same_number new_roll (one * gyro_roll)%py /\
    (is_float gyro_pitch = true -> same_number new_pitch gyro_pitch) /\
    (is_float gyro_roll = true -> same_number new_roll gyro_roll).
Proof.
  intros Hp Hr Ep Er Fp Fr. cbv zeta.
  unfold F.update. rewrite Ep, Er.
  destruct self as [rate wp wr p r last d]. simpl in *. subst wp wr. simpl.
  do 3 eexists. split; [reflexivity|].
  rewrite !fsub_one_one.
  assert (Zp : is_zero (zero * accel_pitch)%py = true)
    by (apply fmul_zero_finite; [reflexivity|assumption]).
  assert (Zr : is_zero (zero * accel_roll)%py = true)
    by (apply fmul_zero_finite; [reflexivity|assumption]).
  split; [apply same_number_add_zero_r; exact Zp|].
  split; [apply same_number_add_zero_r; exact Zr|].
  split; intros Hv.
  - rewrite <- (fmul_one _ Hv) at 2.
    apply same_number_add_zero_r; exact Zp.
  - rewrite <- (fmul_one _ Hv) at 2.
    apply same_number_add_zero_r; exact Zr.
Qed.
End Extremes.

Section ExamplesOfExtremes.
Local Existing Instance Reference.binary64.

(** One sample of 0.1 on every axis: the offset is 0.1 on every axis. *)
Lemma calibrate_gyro_single_sample_witness :
  biased64 O = Vec.Build (f64 1 10) (f64 1 10) (f64 1 10) /\
  is_float (f64 1 10) = true /\
  exists offset,
    Pr.calibrate_gyro processor64 biased64 1
      = Ok (Pr.with_gyro_offset offset processor64, offset) /\
    same_number (Vec.x offset) (f64 1 10) /\
    same_number (Vec.y offset) (f64 1 10) /\
    same_number (Vec.z offset) (f64 1 10).
Proof.
  assert (Hv : is_float (f64 1 10) = true) by reflexivity.
  split; [reflexivity|]. split; [exact Hv|].
  exact (calibrate_gyro_single_sample processor64 biased64
           (Vec.Build (f64 1 10) (f64 1 10) (f64 1 10)) eq_refl Hv Hv Hv).
Defined.

(** The tilted sensor has the angles -0.7297276562269663 and
    0.3398369094541219. *)
Lemma tilted64_pitch :
  F._get_accel_pitch tilted64 = Ok (S754_finite true 6572802401331422 (-53)).
Proof. vm_compute. reflexivity. Qed.

Lemma tilted64_roll :
  F._get_accel_roll tilted64 = Ok (S754_finite false 6121957515137298 (-54)).
Proof. vm_compute. reflexivity. Qed.

(** With weights 0, one update on the tilted sensor gives its angles. *)
Lemma zero_weights_follow_accel_witness :
  exists self' new_pitch new_roll,
    F.update accel_only64 tilted64 turning64 (Some (f64 1 100)) 10
      = Ok (self', Angles.Build new_pitch new_roll) /\
    F.pitch self' = new_pitch /\
    F.roll self' = new_roll /\
    same_number new_pitch (S754_finite true 6572802401331422 (-53)) /\
    same_number new_roll (S754_finite false 6121957515137298 (-54)).
Proof.
  exact (zero_weights_follow_accel accel_only64 tilted64 turning64
           (Some (f64 1 100)) 10 zero zero
           (S754_finite true 6572802401331422 (-53))
           (S754_finite false 6121957515137298 (-54))
           eq_refl eq_refl eq_refl eq_refl tilted64_pitch tilted64_roll
           eq_refl eq_refl eq_refl eq_refl).
Defined.

(** With weights 1, one update on the tilted sensor integrates the
    gyroscope only: the pitch 0.5 becomes 0.5 + 1 * 0.01. *)
Lemma unit_weights_integrate_gyro_only_witness :
  let gyro_pitch :=
    (F.pitch gyro_only64
     + Vec.y turning64 * F.time_step gyro_only64 (Some (f64 1 100)) 10)%py in
  let gyro_roll :=
    (F.roll gyro_only64
     + Vec.x turning64 * F.time_step gyro_only64 (Some (f64 1 100)) 10)%py in
  exists self' new_pitch new_roll,
    F.update gyro_only64 tilted64 turning64 (Some (f64 1 100)) 10
      = Ok (self', Angles.Build new_pitch new_roll) /\
    same_number new_pitch (one * gyro_pitch)%py /\
    same_number new_roll (one * gyro_roll)%py /\
    (is_float gyro_pitch = true -> same_number new_pitch gyro_pitch) /\
    (is_float gyro_roll = true -> same_number new_roll gyro_roll).
Proof.
  exact (unit_weights_integrate_gyro_only gyro_only64 tilted64 turning64
           (Some (f64 1 100)) 10
           (S754_finite true 6572802401331422 (-53))
           (S754_finite false 6121957515137298 (-54))
           eq_refl eq_refl tilted64_pitch tilted64_roll eq_refl eq_refl).
Defined.
End ExamplesOfExtremes.
